(** * Voxel Canvas: the Kinect-style point cloud of [src/pages/Index.tsx]

    A shallow embedding of the scene component [KinectScene] and of its
    vertex shader, with the properties its specification states.

    Numbers.  The shader computes in GLSL [float]s and the camera in
    JavaScript numbers.  Both are embedded as exact rationals [Q]: the
    statements below are about the formulas the code evaluates, and the
    rounding of IEEE arithmetic is not part of the model
    ([CameraFacts.ease_binary64_stalls] shows on the camera where rounding
    parts from the formula).  The grid buffer
    only ever holds integers below [2^24], which a [Float32Array] stores
    exactly; its entries are embedded as [Z]. *)

From Stdlib Require Import ZArith QArith Qabs Qpower Qround Reals Qreals Psatz.
From Stdlib Require Import String Ascii DecimalString.
From Stdlib Require PrimFloat.
From stdpp Require Import base list.

(** ** Rational helpers *)

Definition Qltb (a b : Q) : bool := negb (Qle_bool b a).

(** ** The vertex shader *)

Module Shader.

Open Scope Q_scope.

Record vec2 := mkvec2 { v2x : Q; v2y : Q }.
Record vec3 := mkvec3 { v3x : Q; v3y : Q; v3z : Q }.
Record vec4 := mkvec4 { v4x : Q; v4y : Q; v4z : Q; v4w : Q }.

(** A [mat4] is stored by columns, as in GLSL. *)
Record mat4 := mkmat4 { col0 : vec4; col1 : vec4; col2 : vec4; col3 : vec4 }.

Definition vec4_scale (k : Q) (v : vec4) : vec4 :=
  mkvec4 (k * v4x v) (k * v4y v) (k * v4z v) (k * v4w v).

Definition vec4_add (a b : vec4) : vec4 :=
  mkvec4 (v4x a + v4x b) (v4y a + v4y b) (v4z a + v4z b) (v4w a + v4w b).

(** [m * v] *)
Definition mat4_mul_vec (m : mat4) (v : vec4) : vec4 :=
  vec4_add (vec4_add (vec4_scale (v4x v) (col0 m)) (vec4_scale (v4y v) (col1 m)))
           (vec4_add (vec4_scale (v4z v) (col2 m)) (vec4_scale (v4w v) (col3 m))).

(** [a * b] *)
Definition mat4_mul (a b : mat4) : mat4 :=
  mkmat4 (mat4_mul_vec a (col0 b)) (mat4_mul_vec a (col1 b))
         (mat4_mul_vec a (col2 b)) (mat4_mul_vec a (col3 b)).

(** A texture is what [texture2D] reads from it: an RGBA sample per
    coordinate (red, green, blue, alpha in [v4x] .. [v4w]). *)
Definition sampler2D : Type := vec2 -> vec4.

Definition color_r (c : vec4) : Q := v4x c.
Definition color_g (c : vec4) : Q := v4y c.
Definition color_b (c : vec4) : Q := v4z c.

Record uniforms := mkuniforms {
  map : sampler2D;
  width : Q;
  height : Q;
  nearClipping : Q;
  farClipping : Q;
  pointSize : Q;
  zOffset : Q;
  circleRadius : Q
}.

Definition XtoZ : Q := 1.11146.
Definition YtoZ : Q := 0.83359.

(** Squared Euclidean distance of two points. *)
Definition distance2 (p q : vec2) : Q :=
  (v2x p - v2x q) * (v2x p - v2x q) + (v2y p - v2y q) * (v2y p - v2y q).

(** GLSL's [distance(p, q)], a square root, as a real number. *)
Definition distance (p q : vec2) : R := sqrt (Q2R (distance2 p q)).

(** The test [distance(p, q) > r], decided on rationals: a negative [r] is
    below every distance, and otherwise both sides are squared.
    [distance_gt_spec] below relates it to [distance]. *)
Definition distance_gt (p q : vec2) (r : Q) : bool :=
  Qltb r 0 || Qltb (r * r) (distance2 p q).

(** [float depth = ( color.r + color.g + color.b ) / 3.0;] *)
Definition luminance (color : vec4) : Q :=
  (color_r color + color_g color + color_b color) / 3.

(** [float z = ( 1.0 - depth ) * (farClipping - nearClipping) + nearClipping;] *)
Definition depth_z (u : uniforms) (depth : Q) : Q :=
  (1 - depth) * (farClipping u - nearClipping u) + nearClipping u.

(** The [vec4 pos] of a vertex that is not culled. *)
Definition camera_pos (u : uniforms) (position : vec3) (z : Q) : vec4 :=
  mkvec4 ((v3x position / width u - 0.5) * z * XtoZ)
         ((v3y position / height u - 0.5) * z * YtoZ)
         (- z + zOffset u)
         1.

(** What one run of the shader writes. *)
Record vertex_out := mkvertex_out {
  vUv : vec2;
  gl_PointSize : Q;
  gl_Position : vec4
}.

(** [void main()] of [vertexShader].  A [width] or [height] uniform of 0,
    for which the quotient is not a number in GLSL, is outside the model:
    the material sets them to 640 and 480 and nothing assigns them again. *)
Definition main (u : uniforms) (projectionMatrix modelViewMatrix : mat4)
    (position : vec3) : vertex_out :=
  let vUv := mkvec2 (v3x position / width u) (v3y position / height u) in
  if distance_gt vUv (mkvec2 0.5 0.5) (circleRadius u) then
    mkvertex_out vUv 0 (mkvec4 0 0 0 1)
  else
    let color := map u vUv in
    let depth := luminance color in
    let z := depth_z u depth in
    let pos := camera_pos u position z in
    mkvertex_out vUv (pointSize u)
      (mat4_mul_vec (mat4_mul projectionMatrix modelViewMatrix) pos).

(** The uniforms the material is created with, for a texture [m]. *)
Definition material_uniforms (m : sampler2D) : uniforms :=
  mkuniforms m 640 480 850 4000 2 1000 0.5.

(** The numeric controls of the panel ([useControls]). *)
Record controls := mkcontrols {
  c_nearClipping : Q;
  c_farClipping : Q;
  c_pointSize : Q;
  c_zOffset : Q;
  c_circleRadius : Q
}.

Definition default_controls : controls := mkcontrols 850 4000 2 1000 0.7.

(** The ranges the panel declares for its sliders. *)
Definition in_range (c : controls) : Prop :=
  1 <= c_nearClipping c <= 10000 /\
  1 <= c_farClipping c <= 10000 /\
  1 <= c_pointSize c <= 10 /\
  0 <= c_zOffset c <= 4000 /\
  0 <= c_circleRadius c <= 0.7.

(** The effect that copies the controls into the uniforms; [map], [width]
    and [height] are left as they are. *)
Definition apply_controls (c : controls) (u : uniforms) : uniforms :=
  mkuniforms (map u) (width u) (height u)
    (c_nearClipping c) (c_farClipping c) (c_pointSize c) (c_zOffset c)
    (c_circleRadius c).

(** [material.uniforms.map.value = texture] *)
Definition set_map (m : sampler2D) (u : uniforms) : uniforms :=
  mkuniforms m (width u) (height u) (nearClipping u) (farClipping u)
    (pointSize u) (zOffset u) (circleRadius u).

(** A texture that is black everywhere. *)
Definition black : sampler2D := fun _ => mkvec4 0 0 0 1.

(** The sliders of the two clipping planes set to each other's default. *)
Definition swapped_controls : controls := mkcontrols 4000 850 2 1000 0.7.

Definition swapped_uniforms : uniforms :=
  apply_controls swapped_controls (material_uniforms black).

(** Both clipping sliders on the same value. *)
Definition flat_controls : controls := mkcontrols 850 850 2 1000 0.7.

Definition flat_uniforms : uniforms :=
  apply_controls flat_controls (material_uniforms black).

(** Equality of vectors up to the equality of rationals. *)
Definition vec4_equiv (a b : vec4) : Prop :=
  v4x a == v4x b /\ v4y a == v4y b /\ v4z a == v4z b /\ v4w a == v4w b.

(** The normalized coordinate of a vertex. *)
Definition uv (u : uniforms) (position : vec3) : vec2 :=
  mkvec2 (v3x position / width u) (v3y position / height u).

(** The claim of the specification, in its words: the depth of a vertex
    never grows with the luminance of its sample. *)
Definition monotonic_decreasing (f : Q -> Q) : Prop :=
  forall l1 l2 : Q, l1 <= l2 -> f l2 <= f l1.

Definition monotonic_increasing (f : Q -> Q) : Prop :=
  forall l1 l2 : Q, l1 <= l2 -> f l1 <= f l2.

Definition strictly_increasing (f : Q -> Q) : Prop :=
  forall l1 l2 : Q, l1 < l2 -> f l1 < f l2.

(** [void main()] of [fragmentShader], with its uniforms [map] and
    [videoColor] and the varying [vUv]. *)
Definition fragment_main (m : sampler2D) (videoColor : vec3) (vUv : vec2) : vec4 :=
  let color := m vUv in
  mkvec4 (color_r color * v3x videoColor)
         (color_g color * v3y videoColor)
         (color_b color * v3z videoColor)
         0.8.

(** A colour channel as a texture or a colour uniform holds it. *)
Definition unit_interval (q : Q) : Prop := 0 <= q <= 1.

Definition rgb_in_unit_interval (c : vec4) : Prop :=
  unit_interval (color_r c) /\ unit_interval (color_g c) /\
  unit_interval (color_b c).

(** The output of [main] for a culled vertex. *)
Definition culled_out (u : uniforms) (position : vec3) : vertex_out :=
  mkvertex_out (uv u position) 0 (mkvec4 0 0 0 1).

(** The assignments the component makes to the uniforms of the material
    once it exists: the controls effect and the texture of the video. *)
Inductive uniform_update :=
  | SetControls (c : controls)
  | SetMap (m : sampler2D).

Definition update (o : uniform_update) (u : uniforms) : uniforms :=
  match o with
  | SetControls c => apply_controls c u
  | SetMap m => set_map m u
  end.

Fixpoint updates (os : list uniform_update) (u : uniforms) : uniforms :=
  match os with
  | [] => u
  | o :: os' => updates os' (update o u)
  end.

(** An entry of the point buffer as the [position] attribute of a vertex. *)
Definition grid_position (p : Z * Z * Z) : vec3 :=
  mkvec3 (inject_Z (fst (fst p))) (inject_Z (snd (fst p))) (inject_Z (snd p)).

(** The identity matrix, and a texture that is white everywhere. *)
Definition identity : mat4 :=
  mkmat4 (mkvec4 1 0 0 0) (mkvec4 0 1 0 0) (mkvec4 0 0 1 0) (mkvec4 0 0 0 1).

Definition white : sampler2D := fun _ => mkvec4 1 1 1 1.

End Shader.

(** ** The point grid *)

Module Grid.

(** The body of the [for] loop of the geometry, with [l = vertices.length]:
    while [i < l], store [j % width] at [i] and [Math.floor(j / width)] at
    [i + 1], then step [i] by 3 and [j] by 1.  A typed array ignores a store
    past its end, as the list update does.  [None] when the fuel runs out
    before the loop condition fails. *)
Fixpoint fill (fuel : nat) (width l i j : nat) (vertices : list Z)
    : option (list Z) :=
  match fuel with
  | O => None
  | S fuel' =>
      if (i <? l)%nat then
        let vertices := <[i := Z.of_nat (j mod width)]> vertices in
        let vertices := <[(i + 1)%nat := Z.of_nat (j / width)]> vertices in
        fill fuel' width l (i + 3) (j + 1) vertices
      else Some vertices
  end.

(** [new Float32Array(width * height * 3)] filled by the loop. *)
Definition vertices (width height : nat) : option (list Z) :=
  let zeros := replicate (width * height * 3) 0%Z in
  let l := length zeros in
  fill (S l) width l 0 0 zeros.

(** [new THREE.BufferAttribute(array, itemSize)] and its accessors. *)
Record BufferAttribute := mkBufferAttribute {
  array : list Z;
  itemSize : nat
}.

Definition count (a : BufferAttribute) : nat := length (array a) / itemSize a.

Definition getX (a : BufferAttribute) (index : nat) : option Z :=
  array a !! (index * itemSize a)%nat.
Definition getY (a : BufferAttribute) (index : nat) : option Z :=
  array a !! (index * itemSize a + 1)%nat.
Definition getZ (a : BufferAttribute) (index : nat) : option Z :=
  array a !! (index * itemSize a + 2)%nat.

(** The three components of entry [index]. *)
Definition getXYZ (a : BufferAttribute) (index : nat) : option (Z * Z * Z) :=
  x ← getX a index; y ← getY a index; z ← getZ a index; Some (x, y, z).

(** The [position] attribute of the geometry built in [useMemo]. *)
Definition position_attribute : option BufferAttribute :=
  (fun v => mkBufferAttribute v 3) <$> vertices 640 480.

(** Entry [j] of the point buffer, and the number of its entries. *)
Definition entry (j : nat) : option (Z * Z * Z) :=
  position_attribute ≫= fun a => getXYZ a j.

Definition entries : option nat := count <$> position_attribute.

(** [useMemo(create, [])]: the hook keeps the value of the first render and
    hands it back on every later one, the dependency list being empty.  The
    cell also counts how often [create] ran. *)
Record memo (A : Type) := mkmemo {
  cached : option A;
  computations : nat
}.
Arguments mkmemo {A}.
Arguments cached {A}.
Arguments computations {A}.

Definition useMemo {A : Type} (create : unit -> A) (m : memo A) : A * memo A :=
  match cached m with
  | Some v => (v, m)
  | None => let v := create tt in (v, mkmemo (Some v) (S (computations m)))
  end.

(** The memo cell after [n] renders of the component. *)
Fixpoint renders {A : Type} (create : unit -> A) (n : nat) (m : memo A) : memo A :=
  match n with
  | O => m
  | S n' => renders create n' (snd (useMemo create m))
  end.

Definition geometry_memo (n : nat) : memo (option BufferAttribute) :=
  renders (fun _ => position_attribute) n (mkmemo None 0).

End Grid.

(** ** The camera *)

Module Camera.

Open Scope Q_scope.

Record Vector3 := mkVector3 { x : Q; y : Q; z : Q }.

(** [camera.position] and [mouseRef.current]. *)
Record state := mkstate {
  position : Vector3;
  mouse : Vector3
}.

(** Canvas camera at [0, 0, 500]; [mouseRef] starts as [(0, 0, 1)]. *)
Definition initial : state := mkstate (mkVector3 0 0 500) (mkVector3 0 0 1).

(** [handleMouseMove] *)
Definition handleMouseMove (clientX clientY innerWidth innerHeight : Q)
    (s : state) : state :=
  mkstate (position s)
    (mkVector3 ((clientX - innerWidth / 2) * 8)
               ((clientY - innerHeight / 2) * 8)
               (z (mouse s))).

(** The callback of [useFrame].  [camera.lookAt] turns the camera and leaves
    its position alone. *)
Definition frame (s : state) : state :=
  let p := position s in
  let m := mouse s in
  let x1 := x p + (x m - x p) * 0.01 in
  let y1 := y p + (- y m - y p) * 0.01 in
  mkstate (mkVector3 x1 y1 (z p)) m.

Fixpoint frames (n : nat) (s : state) : state :=
  match n with
  | O => s
  | S n' => frames n' (frame s)
  end.

(** The point each axis eases towards. *)
Definition target_x (s : state) : Q := x (mouse s).
Definition target_y (s : state) : Q := - y (mouse s).

Definition distance_x (s : state) : Q := Qabs (x (position s) - target_x s).
Definition distance_y (s : state) : Q := Qabs (y (position s) - target_y s).

(** What happens to the camera while the page runs: the pointer moves, or
    a frame is rendered. *)
Inductive event :=
  | MouseMove (clientX clientY innerWidth innerHeight : Q)
  | Frame.

Definition step (e : event) (s : state) : state :=
  match e with
  | MouseMove clientX clientY innerWidth innerHeight =>
      handleMouseMove clientX clientY innerWidth innerHeight s
  | Frame => frame s
  end.

Fixpoint run (trace : list event) (s : state) : state :=
  match trace with
  | [] => s
  | e :: trace' => run trace' (step e s)
  end.

Import PrimFloat.

(** The same step on one axis in the numbers JavaScript computes with,
    binary64; the factor is the double nearest to 0.01. *)
Definition ease_binary64 (position target : float) : float :=
  (position + (target - position) * 0x1.47ae147ae147bp-7)%float.

Fixpoint eases_binary64 (n : nat) (position target : float) : float :=
  match n with
  | O => position
  | S n' => eases_binary64 n' (ease_binary64 position target) target
  end.

End Camera.

(** ** The video source: element, texture, listeners and React state *)

Module Video.

Open Scope string_scope.

(** *** Texture *)

(** The texture filters of three.js. *)
Inductive filter :=
  | NearestFilter
  | NearestMipmapNearestFilter
  | NearestMipmapLinearFilter
  | LinearFilter
  | LinearMipmapNearestFilter
  | LinearMipmapLinearFilter.

Record VideoTexture := mkVideoTexture {
  magFilter : filter;
  minFilter : filter;
  generateMipmaps : bool;
  disposed : bool
}.

(** [new THREE.VideoTexture(video)] with no filter argument: three.js makes
    both filters linear and turns mipmaps off. *)
Definition new_VideoTexture : VideoTexture :=
  mkVideoTexture LinearFilter LinearFilter false false.

(** [texture.minFilter = THREE.NearestFilter; texture.generateMipmaps = false] *)
Definition configure (texture : VideoTexture) : VideoTexture :=
  let texture :=
    mkVideoTexture (magFilter texture) NearestFilter
                   (generateMipmaps texture) (disposed texture) in
  mkVideoTexture (magFilter texture) (minFilter texture) false (disposed texture).

(** [texture.dispose()] *)
Definition dispose (texture : VideoTexture) : VideoTexture :=
  mkVideoTexture (magFilter texture) (minFilter texture)
                 (generateMipmaps texture) true.

(** The specification's wording: no interpolation, whichever way the texture
    is sampled (minified or magnified), and no mipmaps. *)
Definition nearest_for_all_sampling (texture : VideoTexture) : Prop :=
  minFilter texture = NearestFilter /\ magFilter texture = NearestFilter.

(** *** Event listeners *)

Inductive event_type := error | play | click | mousemove.

(** The four functions the component passes to [addEventListener]. *)
Inductive callback :=
  | handleVideoError
  | handleVideoPlay
  | playOnClick
  | handleMouseMove.

Definition listener : Type := event_type * callback.

#[export] Instance event_type_eq_dec : EqDecision event_type.
Proof. solve_decision. Defined.
#[export] Instance callback_eq_dec : EqDecision callback.
Proof. solve_decision. Defined.

Definition listener_eqb (a b : listener) : bool := bool_decide (a = b).

Definition registered (l : listener) (ls : list listener) : bool :=
  existsb (listener_eqb l) ls.

(** How many times a listener is in a list. *)
Definition registrations (l : listener) (ls : list listener) : nat :=
  length (List.filter (listener_eqb l) ls).

(** [target.addEventListener(type, f)]: a listener already there is not
    added twice. *)
Definition addEventListener (type : event_type) (f : callback)
    (ls : list listener) : list listener :=
  if registered (type, f) ls then ls else ls ++ [(type, f)].

(** [target.removeEventListener(type, f)] *)
Definition removeEventListener (type : event_type) (f : callback)
    (ls : list listener) : list listener :=
  List.filter (fun l => negb (listener_eqb (type, f) l)) ls.

(** *** Messages *)

(** [video.error] *)
Record MediaError := mkMediaError {
  code : N;
  message : string
}.

(** A number in a template literal. *)
Definition number_to_string (n : N) : string :=
  NilZero.string_of_uint (N.to_uint n).

(** [s || fallback] on strings: the empty string is falsy. *)
Definition string_or (s fallback : string) : string :=
  if String.eqb s "" then fallback else s.

(** [video.error?.code || 'неизвестно'] inside the template *)
Definition error_code_text (e : option MediaError) : string :=
  match e with
  | Some e => if (code e =? 0)%N then "неизвестно" else number_to_string (code e)
  | None => "неизвестно"
  end.

(** [video.error?.message || 'Нет сообщения.'] *)
Definition error_message_text (e : option MediaError) : string :=
  match e with
  | Some e => string_or (message e) "Нет сообщения."
  | None => "Нет сообщения."
  end.

Definition video_error_text (e : option MediaError) : string :=
  "Не удалось загрузить видео. Код ошибки: " ++ error_code_text e ++
  ". Сообщение: " ++ error_message_text e ++
  " Попробуйте кликнуть по экрану.".

Definition autoplay_blocked_text : string :=
  "Автовоспроизведение заблокировано. Кликните в любом месте экрана для запуска.".

(** The reason a [play()] promise is rejected with, seen through its
    [message] property ([None] when it has none). *)
Definition click_error_text (clickError_message : option string) : string :=
  "Не удалось воспроизвести видео даже после клика. Ошибка: " ++
  match clickError_message with
  | Some m => string_or m "неизвестно"
  | None => "неизвестно"
  end ++ ".".

(** [haystack.includes(needle)] *)
Fixpoint includes (needle haystack : string) : bool :=
  String.prefix needle haystack ||
  match haystack with
  | EmptyString => false
  | String _ rest => includes needle rest
  end.

(** *** The component *)

Inductive lifecycle := NotMounted | Mounted | Unmounted.

Record world := mkworld {
  phase : lifecycle;
  (** React state *)
  videoLoadError : option string;
  videoPlaying : bool;
  (** the [<video>] element and [videoRef.current] *)
  videoRef_current : bool;
  paused : bool;
  video_error : option MediaError;
  video_listeners : list listener;
  body_contains_video : bool;
  (** [document] *)
  document_listeners : list listener;
  (** [textureRef.current] *)
  textureRef_current : option VideoTexture;
  (** promises of [play()] that are not settled yet, and the number of
      calls of [play()] so far *)
  initial_play_pending : bool;
  click_play_pending : nat;
  play_calls : nat
}.

Definition initial : world :=
  mkworld NotMounted None false false true None [] false [] None false 0 0.

(** How a promise of [play()] settles. *)
Inductive settled :=
  | Fulfilled
  | Rejected (reason_message : option string).

Inductive event :=
  | Mount (play_returns_promise : bool)
  | InitialPlaySettled (r : settled)
  | DocumentClick
  | ClickPlaySettled (r : settled)
  | VideoErrorEvent (e : option MediaError)
  | VideoPlayEvent
  | VideoPausedChange (now_paused : bool)
  | Unmount.

Definition setVideoLoadError (v : option string) (w : world) : world :=
  mkworld (phase w) v (videoPlaying w) (videoRef_current w) (paused w)
    (video_error w) (video_listeners w) (body_contains_video w)
    (document_listeners w) (textureRef_current w) (initial_play_pending w)
    (click_play_pending w) (play_calls w).

Definition setVideoPlaying (v : bool) (w : world) : world :=
  mkworld (phase w) (videoLoadError w) v (videoRef_current w) (paused w)
    (video_error w) (video_listeners w) (body_contains_video w)
    (document_listeners w) (textureRef_current w) (initial_play_pending w)
    (click_play_pending w) (play_calls w).

Definition set_document_listeners (ls : list listener) (w : world) : world :=
  mkworld (phase w) (videoLoadError w) (videoPlaying w) (videoRef_current w)
    (paused w) (video_error w) (video_listeners w) (body_contains_video w)
    ls (textureRef_current w) (initial_play_pending w)
    (click_play_pending w) (play_calls w).

(** [handleVideoError]: reads [video.error] when the event is handled. *)
Definition run_handleVideoError (w : world) : world :=
  setVideoPlaying false
    (setVideoLoadError (Some (video_error_text (video_error w))) w).

(** [handleVideoPlay] *)
Definition run_handleVideoPlay (w : world) : world :=
  setVideoLoadError None (setVideoPlaying true w).

(** The effect of [useEffect(..., [material])] up to the call of
    [video.play()], followed by the effect that listens to [mousemove]. *)
Definition mount (play_returns_promise : bool) (w : world) : world :=
  mkworld Mounted (videoLoadError w) (videoPlaying w)
    true                                   (* videoRef.current = video *)
    true                                   (* a new element is paused *)
    None
    (addEventListener play handleVideoPlay
       (addEventListener error handleVideoError []))
    true                                   (* document.body.appendChild(video) *)
    (addEventListener mousemove handleMouseMove (document_listeners w))
    (Some (configure new_VideoTexture))    (* textureRef.current = texture *)
    play_returns_promise                   (* playPromise !== undefined *)
    (click_play_pending w)
    (S (play_calls w)).                    (* video.play() *)

(** The [.then] of the first [play()]. *)
Definition initial_play_then (w : world) : world :=
  setVideoLoadError None (setVideoPlaying true w).

(** The [.catch] of the first [play()]: it also creates [playOnClick] and
    registers it on the document. *)
Definition initial_play_catch (w : world) : world :=
  let w := setVideoLoadError (Some autoplay_blocked_text) w in
  let w := setVideoPlaying false w in
  set_document_listeners
    (addEventListener click playOnClick (document_listeners w)) w.

Definition set_initial_play_pending (b : bool) (w : world) : world :=
  mkworld (phase w) (videoLoadError w) (videoPlaying w) (videoRef_current w)
    (paused w) (video_error w) (video_listeners w) (body_contains_video w)
    (document_listeners w) (textureRef_current w) b
    (click_play_pending w) (play_calls w).

Definition set_click_play_pending (n : nat) (w : world) : world :=
  mkworld (phase w) (videoLoadError w) (videoPlaying w) (videoRef_current w)
    (paused w) (video_error w) (video_listeners w) (body_contains_video w)
    (document_listeners w) (textureRef_current w) (initial_play_pending w)
    n (play_calls w).

(** [videoRef.current?.play()] in [playOnClick]: one more call, one more
    promise to settle. *)
Definition call_play_on_click (w : world) : world :=
  mkworld (phase w) (videoLoadError w) (videoPlaying w) (videoRef_current w)
    (paused w) (video_error w) (video_listeners w) (body_contains_video w)
    (document_listeners w) (textureRef_current w) (initial_play_pending w)
    (S (click_play_pending w)) (S (play_calls w)).

(** [playOnClick] up to the call of [play()]. *)
Definition run_playOnClick (w : world) : world :=
  if videoRef_current w && negb (paused w) then
    set_document_listeners
      (removeEventListener click playOnClick (document_listeners w)) w
  else if videoRef_current w then call_play_on_click w
  else w.

(** The [.then] of the [play()] of [playOnClick]. *)
Definition click_play_then (w : world) : world :=
  let w := setVideoPlaying true w in
  let w := setVideoLoadError None w in
  set_document_listeners
    (removeEventListener click playOnClick (document_listeners w)) w.

(** The [.catch] of the [play()] of [playOnClick]. *)
Definition click_play_catch (clickError_message : option string) (w : world)
    : world :=
  setVideoLoadError (Some (click_error_text clickError_message)) w.

(** The cleanup of the video effect, then the cleanup of the [mousemove]
    effect. *)
Definition unmount (w : world) : world :=
  let removed := body_contains_video w in
  mkworld Unmounted (videoLoadError w) (videoPlaying w) (videoRef_current w)
    (paused w) (video_error w)
    (if removed then
       removeEventListener play handleVideoPlay
         (removeEventListener error handleVideoError (video_listeners w))
     else video_listeners w)
    (if removed then false else body_contains_video w)
    (removeEventListener mousemove handleMouseMove (document_listeners w))
    (match textureRef_current w with
     | Some texture => Some (dispose texture)
     | None => None
     end)
    (initial_play_pending w) (click_play_pending w) (play_calls w).

Definition set_video_error (e : option MediaError) (w : world) : world :=
  mkworld (phase w) (videoLoadError w) (videoPlaying w) (videoRef_current w)
    (paused w) e (video_listeners w) (body_contains_video w)
    (document_listeners w) (textureRef_current w) (initial_play_pending w)
    (click_play_pending w) (play_calls w).

Definition set_paused (b : bool) (w : world) : world :=
  mkworld (phase w) (videoLoadError w) (videoPlaying w) (videoRef_current w)
    b (video_error w) (video_listeners w) (body_contains_video w)
    (document_listeners w) (textureRef_current w) (initial_play_pending w)
    (click_play_pending w) (play_calls w).

(** One event of the page.  An event that cannot happen in a world (a
    promise settling that nobody waits for, an event on an element that does
    not exist) leaves it as it is; an event with no listener registered for
    it only changes the element. *)
Definition step (e : event) (w : world) : world :=
  match e with
  | Mount p =>
      match phase w with
      | NotMounted => mount p w
      | _ => w
      end
  | InitialPlaySettled r =>
      if initial_play_pending w then
        let w := set_initial_play_pending false w in
        match r with
        | Fulfilled => initial_play_then w
        | Rejected _ => initial_play_catch w
        end
      else w
  | DocumentClick =>
      if registered (click, playOnClick) (document_listeners w)
      then run_playOnClick w else w
  | ClickPlaySettled r =>
      match click_play_pending w with
      | O => w
      | S n =>
          let w := set_click_play_pending n w in
          match r with
          | Fulfilled => click_play_then w
          | Rejected m => click_play_catch m w
          end
      end
  | VideoErrorEvent e =>
      match phase w with
      | NotMounted => w
      | _ =>
          let w := set_video_error e w in
          if registered (error, handleVideoError) (video_listeners w)
          then run_handleVideoError w else w
      end
  | VideoPlayEvent =>
      if registered (play, handleVideoPlay) (video_listeners w)
      then run_handleVideoPlay w else w
  | VideoPausedChange b =>
      match phase w with
      | NotMounted => w
      | _ => set_paused b w
      end
  | Unmount =>
      match phase w with
      | Mounted => unmount w
      | _ => w
      end
  end.

(** The events of a trace, first to last. *)
Fixpoint run (trace : list event) (w : world) : world :=
  match trace with
  | [] => w
  | e :: trace' => run trace' (step e w)
  end.

(** A world the page can be in after it was mounted. *)
Definition reachable (w : world) : Prop :=
  exists (p : bool) (trace : list event), w = run (Mount p :: trace) initial.

(** [{videoLoadError && <div ...><p>{videoLoadError}</p></div>}]: the text
    of the overlay, if the component renders one. *)
Definition overlay (w : world) : option string :=
  match phase w, videoLoadError w with
  | Mounted, Some text => if String.eqb text "" then None else Some text
  | _, _ => None
  end.

(** The playback state of the specification, read off the React state:
    the message tells a blocked autoplay from an error. *)
Inductive playback_state :=
  | loading
  | playing
  | blocked_needs_interaction
  | errored (message : string).

Definition playback (w : world) : playback_state :=
  match videoLoadError w with
  | Some text =>
      if String.eqb text autoplay_blocked_text
      then blocked_needs_interaction else errored text
  | None => if videoPlaying w then playing else loading
  end.

(** The listeners the component has registered anywhere. *)
Definition listeners (w : world) : list listener :=
  video_listeners w ++ document_listeners w.

(** What the specification asks of a teardown. *)
Definition released (w : world) : Prop :=
  listeners w = [] /\
  body_contains_video w = false /\
  (forall texture, textureRef_current w = Some texture -> disposed texture = true).

(** What holds of every world after the mount: the texture and the element
    exist, and the listeners are the ones of the current phase. *)
Definition mounted_inv (w : world) : Prop :=
  videoRef_current w = true /\
  (exists texture,
     textureRef_current w = Some texture /\
     minFilter texture = NearestFilter /\
     magFilter texture = LinearFilter /\
     generateMipmaps texture = false /\
     disposed texture = match phase w with Unmounted => true | _ => false end) /\
  match phase w with
  | NotMounted => False
  | Mounted =>
      video_listeners w = [(error, handleVideoError); (play, handleVideoPlay)] /\
      body_contains_video w = true /\
      (document_listeners w = [(mousemove, handleMouseMove)] \/
       document_listeners w =
         [(mousemove, handleMouseMove); (click, playOnClick)])
  | Unmounted =>
      video_listeners w = [] /\
      body_contains_video w = false /\
      (document_listeners w = [] \/
       document_listeners w = [(click, playOnClick)])
  end.

(** The component right after its mount. *)
Definition just_mounted : world := step (Mount true) initial.

(** The scenarios of the specification. *)
Definition autoplay_blocked : world :=
  run [Mount true; InitialPlaySettled (Rejected None)] initial.

Definition format_not_supported : MediaError :=
  mkMediaError 4 "format not supported".

(** A blocked autoplay, and then the video starts without a click. *)
Definition blocked_but_playing : world :=
  step (VideoPausedChange false) autoplay_blocked.

(** A blocked autoplay, and the component is unmounted before any click. *)
Definition unmounted_while_blocked : world := step Unmount autoplay_blocked.



(** The autoplay was allowed. *)
Definition autoplay_started : world :=
  run [Mount true; InitialPlaySettled Fulfilled] initial.

(** The component was unmounted while its first [play()] was pending. *)
Definition unmounted_early : world := run [Mount true; Unmount] initial.




End Video.

(** * Properties *)

(** ** Rational helpers *)

Lemma Qltb_lt (a b : Q) : Qltb a b = true <-> (a < b)%Q.
Proof.
  unfold Qltb. rewrite negb_true_iff. split.
  - intros H. apply Qnot_le_lt. intros Hle.
    apply Qle_bool_iff in Hle. congruence.
  - intros H. destruct (Qle_bool b a) eqn:E; [|reflexivity].
    apply Qle_bool_iff in E. exfalso. exact (Qlt_not_le _ _ H E).
Qed.

Lemma Qltb_nlt (a b : Q) : Qltb a b = false <-> ~ (a < b)%Q.
Proof.
  rewrite <- Qltb_lt. destruct (Qltb a b); split; intros; congruence.
Qed.

(** ** The vertex shader *)

Module ShaderFacts.

Import Shader.
Open Scope Q_scope.

Lemma distance2_nonneg (p q : vec2) : 0 <= distance2 p q.
Proof.
  unfold distance2.
  generalize (v2x p - v2x q) (v2y p - v2y q). intros a b. nra.
Qed.

(** The rational test of the shader's [if] is the comparison of the real
    distance with the radius. *)
Lemma distance_gt_spec (p q : vec2) (r : Q) :
  distance_gt p q r = true <-> (distance p q > Q2R r)%R.
Proof.
  unfold distance_gt, distance.
  pose proof (distance2_nonneg p q) as Hd.
  apply Qle_Rle in Hd. rewrite RMicromega.Q2R_0 in Hd.
  pose proof (sqrt_pos (Q2R (distance2 p q))) as Hs.
  rewrite orb_true_iff, !Qltb_lt.
  split.
  - intros [Hr | Hr].
    + apply Qlt_Rlt in Hr. rewrite RMicromega.Q2R_0 in Hr. lra.
    + apply Qlt_Rlt in Hr. rewrite Q2R_mult in Hr.
      destruct (Rlt_le_dec (Q2R r) 0) as [Hneg | Hpos]; [lra|].
      rewrite <- (sqrt_square (Q2R r)) by exact Hpos.
      apply sqrt_lt_1_alt. split; [nra | exact Hr].
  - intros H.
    destruct (Qlt_le_dec r 0) as [Hneg | Hpos]; [left; exact Hneg | right].
    apply Rlt_Qlt. rewrite Q2R_mult.
    apply Qle_Rle in Hpos. rewrite RMicromega.Q2R_0 in Hpos.
    rewrite <- (sqrt_sqrt (Q2R (distance2 p q))) by exact Hd.
    nra.
Qed.

Lemma distance_gt_false (p q : vec2) (r : Q) :
  distance_gt p q r = false <-> ~ (distance p q > Q2R r)%R.
Proof.
  rewrite <- distance_gt_spec. destruct (distance_gt p q r); split;
    intros; congruence.
Qed.

(** The branches of [main]. *)
Lemma main_culled (u : uniforms) (P MV : mat4) (position : vec3) :
  distance_gt (uv u position) (mkvec2 0.5 0.5) (circleRadius u) = true ->
  main u P MV position = mkvertex_out (uv u position) 0 (mkvec4 0 0 0 1).
Proof. intros H. unfold main. fold (uv u position). rewrite H. reflexivity. Qed.

Lemma main_drawn (u : uniforms) (P MV : mat4) (position : vec3) :
  distance_gt (uv u position) (mkvec2 0.5 0.5) (circleRadius u) = false ->
  main u P MV position =
  mkvertex_out (uv u position) (pointSize u)
    (mat4_mul_vec (mat4_mul P MV)
       (camera_pos u position
          (depth_z u (luminance (map u (uv u position)))))).
Proof. intros H. unfold main. fold (uv u position). rewrite H. reflexivity. Qed.

(** Differences of depths factor through the difference of luminances. *)
Lemma depth_z_diff (u : uniforms) (l1 l2 : Q) :
  depth_z u l1 - depth_z u l2 == (l2 - l1) * (farClipping u - nearClipping u).
Proof. unfold depth_z. ring. Qed.

Lemma depth_z_decreasing (u : uniforms) :
  nearClipping u <= farClipping u -> monotonic_decreasing (depth_z u).
Proof.
  intros Hnf l1 l2 Hl. pose proof (depth_z_diff u l1 l2) as Hd.
  assert (0 <= (l2 - l1) * (farClipping u - nearClipping u)) by
    (apply Qmult_le_0_compat; lra).
  lra.
Qed.

Lemma depth_z_increasing (u : uniforms) :
  farClipping u <= nearClipping u -> monotonic_increasing (depth_z u).
Proof.
  intros Hnf l1 l2 Hl. pose proof (depth_z_diff u l2 l1) as Hd.
  assert (0 <= (l2 - l1) * (nearClipping u - farClipping u)) by
    (apply Qmult_le_0_compat; lra).
  lra.
Qed.

Lemma depth_z_strictly_increasing (u : uniforms) :
  farClipping u < nearClipping u -> strictly_increasing (depth_z u).
Proof.
  intros Hnf l1 l2 Hl. pose proof (depth_z_diff u l2 l1) as Hd.
  assert (0 < (l2 - l1) * (nearClipping u - farClipping u)) by
    (apply Qmult_lt_0_compat; lra).
  lra.
Qed.

Lemma depth_z_flat (u : uniforms) (depth : Q) :
  farClipping u == nearClipping u -> depth_z u depth == nearClipping u.
Proof. intros H. unfold depth_z. rewrite H. ring. Qed.

#[export] Instance depth_z_proper (u : uniforms) : Proper (Qeq ==> Qeq) (depth_z u).
Proof. intros a b Hab. unfold depth_z. rewrite Hab. reflexivity. Qed.

Lemma swapped_in_range : in_range swapped_controls.
Proof. unfold in_range, swapped_controls; simpl. repeat split; lra. Qed.

Lemma flat_in_range : in_range flat_controls.
Proof. unfold in_range, flat_controls; simpl. repeat split; lra. Qed.

Lemma default_in_range : in_range default_controls.
Proof. unfold in_range, default_controls; simpl. repeat split; lra. Qed.

(** Vectors equal up to [==] stay so under a matrix. *)
Lemma mat4_mul_vec_equiv (m : mat4) (a b : vec4) :
  vec4_equiv a b -> vec4_equiv (mat4_mul_vec m a) (mat4_mul_vec m b).
Proof.
  intros (Hx & Hy & Hz & Hw).
  unfold vec4_equiv, mat4_mul_vec, vec4_add, vec4_scale; simpl.
  rewrite Hx, Hy, Hz, Hw. repeat split; reflexivity.
Qed.

Lemma camera_pos_equiv (u : uniforms) (position : vec3) (z1 z2 : Q) :
  z1 == z2 -> vec4_equiv (camera_pos u position z1) (camera_pos u position z2).
Proof.
  intros H. unfold vec4_equiv, camera_pos; simpl.
  rewrite H. repeat split; reflexivity.
Qed.

(** C1, as the specification words it, fails: with the two clipping sliders
    at 4000 (near) and 850 (far), both inside their declared ranges, the
    depth of luminance 0 is 850 and the depth of luminance 1 is 4000, so the
    mapping grows. *)
Lemma depth_mapping_grows_when_far_below_near :
  in_range swapped_controls /\
  depth_z swapped_uniforms 0 == 850 /\
  depth_z swapped_uniforms 1 == 4000 /\
  ~ monotonic_decreasing (depth_z swapped_uniforms).
Proof.
  split; [exact swapped_in_range|].
  split; [reflexivity|]. split; [reflexivity|].
  intros H. specialize (H 0 1 ltac:(lra)).
  vm_compute in H. apply H. reflexivity.
Qed.

(** C1 (amended): a vertex that is not culled is placed at the depth
    [z = (1 - luminance) * (farClipping - nearClipping) + nearClipping],
    where luminance is (R+G+B)/3 of its texture sample; luminance 0 gives
    [z = farClipping] and luminance 1 gives [z = nearClipping] for every
    value of the uniforms; and when [nearClipping <= farClipping] the depth
    is monotonic decreasing in the luminance. *)
Theorem depth_mapping_decreasing (u : uniforms) :
  (forall (P MV : mat4) (position : vec3),
     distance_gt (uv u position) (mkvec2 0.5 0.5) (circleRadius u) = false ->
     let color := map u (uv u position) in
     let z := (1 - (color_r color + color_g color + color_b color) / 3)
              * (farClipping u - nearClipping u) + nearClipping u in
     gl_Position (main u P MV position) =
     mat4_mul_vec (mat4_mul P MV) (camera_pos u position z)) /\
  (forall color : vec4, luminance color == 0 ->
     depth_z u (luminance color) == farClipping u) /\
  (forall color : vec4, luminance color == 1 ->
     depth_z u (luminance color) == nearClipping u) /\
  (nearClipping u <= farClipping u ->
     forall c1 c2 : vec4, luminance c1 <= luminance c2 ->
     depth_z u (luminance c2) <= depth_z u (luminance c1)).
Proof.
  split; [|split; [|split]].
  - intros P MV position H. rewrite (main_drawn u P MV position H). reflexivity.
  - intros color H. rewrite H. unfold depth_z. ring.
  - intros color H. rewrite H. unfold depth_z. ring.
  - intros H c1 c2 Hc. exact (depth_z_decreasing u H _ _ Hc).
Qed.

(** The sliders at their defaults ([nearClipping] 850, [farClipping] 4000),
    on a black and a white sample. *)
Lemma depth_mapping_decreasing_witness :
  let u := apply_controls default_controls (material_uniforms black) in
  in_range default_controls /\
  nearClipping u <= farClipping u /\
  luminance (mkvec4 0 0 0 1) <= luminance (mkvec4 1 1 1 1) /\
  depth_z u (luminance (mkvec4 1 1 1 1)) <= depth_z u (luminance (mkvec4 0 0 0 1)).
Proof.
  intros u.
  assert (Hnf : nearClipping u <= farClipping u) by (vm_compute; discriminate).
  assert (Hl : luminance (mkvec4 0 0 0 1) <= luminance (mkvec4 1 1 1 1))
    by (vm_compute; discriminate).
  split; [exact default_in_range|]. split; [exact Hnf|]. split; [exact Hl|].
  exact (proj2 (proj2 (proj2 (depth_mapping_decreasing u)))
           Hnf (mkvec4 0 0 0 1) (mkvec4 1 1 1 1) Hl).
Defined.

(** C3: a vertex whose normalized coordinate [(x/width, y/height)] lies
    farther from [(0.5, 0.5)] than [circleRadius] is culled, whatever the
    texture holds: point size 0 and the position [(0, 0, 0, 1)].  Any other
    vertex gets the point size of the uniform and, before the projection and
    view matrices are applied, the position
    [((x/width - 0.5) z XtoZ, (y/height - 0.5) z YtoZ, - z + zOffset, 1)]. *)
Theorem vertex_culled_or_positioned (u : uniforms) (P MV : mat4) (position : vec3) :
  let x := v3x position in
  let y := v3y position in
  let vUv := mkvec2 (x / width u) (y / height u) in
  ((distance vUv (mkvec2 0.5 0.5) > Q2R (circleRadius u))%R ->
   forall texture : sampler2D,
     main (set_map texture u) P MV position =
     mkvertex_out vUv 0 (mkvec4 0 0 0 1)) /\
  (~ (distance vUv (mkvec2 0.5 0.5) > Q2R (circleRadius u))%R ->
   let z := depth_z u (luminance (map u vUv)) in
   main u P MV position =
   mkvertex_out vUv (pointSize u)
     (mat4_mul_vec (mat4_mul P MV)
        (mkvec4 ((x / width u - 0.5) * z * XtoZ)
                ((y / height u - 0.5) * z * YtoZ)
                (- z + zOffset u)
                1))).
Proof.
  cbv zeta. split.
  - intros H texture. apply distance_gt_spec in H.
    exact (main_culled (set_map texture u) P MV position H).
  - intros H. apply distance_gt_false in H.
    exact (main_drawn u P MV position H).
Qed.

(** The corner vertex (0, 0) is culled and the centre vertex (320, 240) is
    drawn, with the uniforms of the material (radius 0.5) and the identity
    for both matrices. *)
Lemma vertex_culled_or_positioned_witness :
  let u := material_uniforms black in
  let I := mkmat4 (mkvec4 1 0 0 0) (mkvec4 0 1 0 0) (mkvec4 0 0 1 0) (mkvec4 0 0 0 1) in
  ((distance (mkvec2 (0 / 640) (0 / 480)) (mkvec2 0.5 0.5) > Q2R 0.5)%R /\
   main (set_map black u) I I (mkvec3 0 0 0) =
   mkvertex_out (mkvec2 (0 / 640) (0 / 480)) 0 (mkvec4 0 0 0 1)) /\
  (~ (distance (mkvec2 (320 / 640) (240 / 480)) (mkvec2 0.5 0.5) > Q2R 0.5)%R /\
   gl_PointSize (main u I I (mkvec3 320 240 0)) = 2).
Proof.
  intros u I.
  assert (Hout : (distance (mkvec2 (0 / 640) (0 / 480)) (mkvec2 0.5 0.5)
                  > Q2R 0.5)%R) by (apply distance_gt_spec; reflexivity).
  assert (Hin : ~ (distance (mkvec2 (320 / 640) (240 / 480)) (mkvec2 0.5 0.5)
                   > Q2R 0.5)%R) by (apply distance_gt_false; reflexivity).
  split.
  - split; [exact Hout|].
    exact (proj1 (vertex_culled_or_positioned u I I (mkvec3 0 0 0)) Hout black).
  - split; [exact Hin|].
    rewrite (proj2 (vertex_culled_or_positioned u I I (mkvec3 320 240 0)) Hin).
    reflexivity.
Defined.

(** Under two identity matrices the third coordinate of the clip position
    is the third coordinate of the reprojected point. *)
Lemma identity_v4z (v : vec4) :
  v4z (mat4_mul_vec (mat4_mul identity identity) v) == v4z v.
Proof.
  assert (E : mat4_mul identity identity = identity) by (vm_compute; reflexivity).
  rewrite E.
  unfold mat4_mul_vec, vec4_add, vec4_scale, identity; cbn [v4x v4y v4z v4w
    col0 col1 col2 col3].
  ring.
Qed.

(** C10: [main] applies the depth formula to every vertex that is not
    culled, whatever the two clipping uniforms are: there is no guard that
    [farClipping > nearClipping].  With [farClipping = nearClipping] every
    such vertex sits at [z = nearClipping], whatever its sample.  With
    [farClipping < nearClipping] the depth grows with the luminance, so that
    of two textures the one that is brighter at a vertex puts it farther
    from the camera. *)
Theorem depth_mapping_unguarded (u : uniforms) :
  (forall (texture : sampler2D) (P MV : mat4) (position : vec3),
     distance_gt (uv u position) (mkvec2 0.5 0.5) (circleRadius u) = false ->
     let color := texture (uv u position) in
     gl_Position (main (set_map texture u) P MV position) =
     mat4_mul_vec (mat4_mul P MV)
       (camera_pos u position
          ((1 - (color_r color + color_g color + color_b color) / 3)
           * (farClipping u - nearClipping u) + nearClipping u))) /\
  (farClipping u == nearClipping u ->
     (forall depth : Q, depth_z u depth == nearClipping u) /\
     (forall (texture : sampler2D) (P MV : mat4) (position : vec3),
        distance_gt (uv u position) (mkvec2 0.5 0.5) (circleRadius u) = false ->
        vec4_equiv (gl_Position (main (set_map texture u) P MV position))
          (mat4_mul_vec (mat4_mul P MV)
             (camera_pos u position (nearClipping u))))) /\
  (farClipping u < nearClipping u ->
     (forall c1 c2 : vec4,
        (luminance c1 <= luminance c2 ->
         depth_z u (luminance c1) <= depth_z u (luminance c2)) /\
        (luminance c1 < luminance c2 ->
         depth_z u (luminance c1) < depth_z u (luminance c2))) /\
     (forall (darker brighter : sampler2D) (position : vec3),
        distance_gt (uv u position) (mkvec2 0.5 0.5) (circleRadius u) = false ->
        luminance (darker (uv u position))
        < luminance (brighter (uv u position)) ->
        v4z (gl_Position (main (set_map brighter u) identity identity position))
        < v4z (gl_Position (main (set_map darker u) identity identity position)))).
Proof.
  split; [|split].
  - intros texture P MV position H. cbv zeta.
    rewrite (main_drawn (set_map texture u) P MV position H). reflexivity.
  - intros Hflat. split.
    + intros depth. exact (depth_z_flat u depth Hflat).
    + intros texture P MV position H.
      rewrite (main_drawn (set_map texture u) P MV position H). simpl.
      apply mat4_mul_vec_equiv.
      change (camera_pos (set_map texture u) position)
        with (camera_pos u position).
      apply camera_pos_equiv.
      change (depth_z (set_map texture u)) with (depth_z u).
      exact (depth_z_flat u _ Hflat).
  - intros H. split.
    + intros c1 c2. split; intros Hc.
      * exact (depth_z_increasing u (Qlt_le_weak _ _ H) _ _ Hc).
      * exact (depth_z_strictly_increasing u H _ _ Hc).
    + intros darker brighter position Hdrawn Hl.
      rewrite (main_drawn (set_map brighter u) identity identity position Hdrawn).
      rewrite (main_drawn (set_map darker u) identity identity position Hdrawn).
      cbn [gl_Position]. rewrite !identity_v4z.
      unfold camera_pos. cbn [v4z map set_map].
      change (depth_z (set_map brighter u)) with (depth_z u).
      change (depth_z (set_map darker u)) with (depth_z u).
      change (zOffset (set_map brighter u)) with (zOffset u).
      change (zOffset (set_map darker u)) with (zOffset u).
      pose proof (depth_z_strictly_increasing u H _ _ Hl) as Hz.
      change (uv (set_map brighter u) position) with (uv u position).
      change (uv (set_map darker u) position) with (uv u position).
      lra.
Qed.

(** Both clipping sliders at 850, and the two sliders swapped: there the
    white texture puts the centre vertex farther than the black one. *)
Lemma depth_mapping_unguarded_witness :
  (in_range flat_controls /\ in_range swapped_controls) /\
  (farClipping flat_uniforms == nearClipping flat_uniforms /\
   depth_z flat_uniforms 0 == nearClipping flat_uniforms /\
   depth_z flat_uniforms 1 == nearClipping flat_uniforms) /\
  (farClipping swapped_uniforms < nearClipping swapped_uniforms /\
   depth_z swapped_uniforms (luminance (mkvec4 0 0 0 1)) <
   depth_z swapped_uniforms (luminance (mkvec4 1 1 1 1))) /\
  (distance_gt (uv swapped_uniforms (mkvec3 320 240 0)) (mkvec2 0.5 0.5)
     (circleRadius swapped_uniforms) = false /\
   luminance (black (uv swapped_uniforms (mkvec3 320 240 0)))
   < luminance (white (uv swapped_uniforms (mkvec3 320 240 0))) /\
   v4z (gl_Position (main (set_map white swapped_uniforms) identity identity
                       (mkvec3 320 240 0)))
   < v4z (gl_Position (main (set_map black swapped_uniforms) identity identity
                         (mkvec3 320 240 0)))).
Proof.
  assert (Hflat : farClipping flat_uniforms == nearClipping flat_uniforms)
    by reflexivity.
  assert (Hswap : farClipping swapped_uniforms < nearClipping swapped_uniforms)
    by reflexivity.
  assert (Hl : luminance (mkvec4 0 0 0 1) < luminance (mkvec4 1 1 1 1))
    by reflexivity.
  assert (Hdrawn : distance_gt (uv swapped_uniforms (mkvec3 320 240 0))
                     (mkvec2 0.5 0.5) (circleRadius swapped_uniforms) = false)
    by reflexivity.
  split; [split; [exact flat_in_range | exact swapped_in_range]|].
  split; [|split].
  - split; [exact Hflat|].
    pose proof (proj1 (proj1 (proj2 (depth_mapping_unguarded flat_uniforms))
                         Hflat)) as H.
    split; [exact (H 0) | exact (H 1)].
  - split; [exact Hswap|].
    exact (proj2 (proj1 (proj2 (proj2 (depth_mapping_unguarded swapped_uniforms))
                           Hswap)
                    (mkvec4 0 0 0 1) (mkvec4 1 1 1 1)) Hl).
  - split; [exact Hdrawn|]. split; [exact Hl|].
    exact (proj2 (proj2 (proj2 (depth_mapping_unguarded swapped_uniforms)) Hswap)
             black white (mkvec3 320 240 0) Hdrawn Hl).
Defined.

(** *** Further properties of the two shaders *)

Lemma luminance_in_unit_interval (color : vec4) :
  rgb_in_unit_interval color -> unit_interval (luminance color).
Proof.
  unfold rgb_in_unit_interval, unit_interval, luminance.
  intros ((Hr0 & Hr1) & (Hg0 & Hg1) & (Hb0 & Hb1)).
  generalize dependent (color_r color). generalize dependent (color_g color).
  generalize dependent (color_b color). intros b Hb0 Hb1 g Hg0 Hg1 r Hr0 Hr1.
  split.
  - apply Qle_shift_div_l; [reflexivity | lra].
  - apply Qle_shift_div_r; [reflexivity | lra].
Qed.

(** The depth is a weighted mean of the two clipping values. *)
Lemma depth_z_mean (u : uniforms) (l : Q) :
  depth_z u l == (1 - l) * farClipping u + l * nearClipping u.
Proof. unfold depth_z. ring. Qed.

Lemma depth_z_between (u : uniforms) (l lo hi : Q) :
  unit_interval l ->
  lo <= nearClipping u <= hi -> lo <= farClipping u <= hi ->
  lo <= depth_z u l <= hi.
Proof.
  intros (Hl0 & Hl1) (Hn0 & Hn1) (Hf0 & Hf1).
  rewrite depth_z_mean.
  assert (H1 : 0 <= (1 - l) * (farClipping u - lo))
    by (apply Qmult_le_0_compat; lra).
  assert (H2 : 0 <= l * (nearClipping u - lo))
    by (apply Qmult_le_0_compat; lra).
  assert (H3 : 0 <= (1 - l) * (hi - farClipping u))
    by (apply Qmult_le_0_compat; lra).
  assert (H4 : 0 <= l * (hi - nearClipping u))
    by (apply Qmult_le_0_compat; lra).
  split; lra.
Qed.

(** The depth of a sample never leaves the range of the two clipping
    values, whichever of them is the larger: with colour channels in [0, 1]
    it lies between [nearClipping] and [farClipping], and the third
    coordinate of the vertex before projection lies between
    [zOffset - farClipping] and [zOffset - nearClipping]. *)
Theorem depth_stays_between_clipping_values (u : uniforms) (position : vec3)
    (color : vec4) (lo hi : Q) :
  rgb_in_unit_interval color ->
  lo <= nearClipping u <= hi ->
  lo <= farClipping u <= hi ->
  lo <= depth_z u (luminance color) <= hi /\
  zOffset u - hi
  <= v4z (camera_pos u position (depth_z u (luminance color)))
  <= zOffset u - lo.
Proof.
  intros Hc Hn Hf.
  pose proof (depth_z_between u _ lo hi (luminance_in_unit_interval _ Hc) Hn Hf)
    as (H0 & H1).
  split; [split; assumption|].
  unfold camera_pos; cbn [v4z]. split; lra.
Qed.

Lemma depth_stays_between_clipping_values_witness :
  let u := material_uniforms black in
  rgb_in_unit_interval (mkvec4 (1 # 2) (1 # 4) 1 1) /\
  850 <= depth_z u (luminance (mkvec4 (1 # 2) (1 # 4) 1 1)) <= 4000.
Proof.
  intros u.
  assert (Hc : rgb_in_unit_interval (mkvec4 (1 # 2) (1 # 4) 1 1))
    by (repeat split; vm_compute; discriminate).
  assert (Hn : 850 <= nearClipping u <= 4000)
    by (split; vm_compute; discriminate).
  assert (Hf : 850 <= farClipping u <= 4000)
    by (split; vm_compute; discriminate).
  split; [exact Hc|].
  exact (proj1 (depth_stays_between_clipping_values u (mkvec3 0 0 0)
                  (mkvec4 (1 # 2) (1 # 4) 1 1) 850 4000 Hc Hn Hf)).
Defined.

(** With the sliders inside their ranges every drawn vertex is in front of
    the camera plane of the reprojection: its depth is at least 1. *)
Theorem depth_is_positive_in_slider_range (c : controls) (u : uniforms)
    (color : vec4) :
  in_range c ->
  rgb_in_unit_interval color ->
  1 <= depth_z (apply_controls c u) (luminance color) <= 10000.
Proof.
  intros (Hn & Hf & _) Hc.
  exact (depth_z_between (apply_controls c u) _ 1 10000
           (luminance_in_unit_interval _ Hc) Hn Hf).
Qed.

Lemma depth_is_positive_in_slider_range_witness :
  in_range swapped_controls /\
  rgb_in_unit_interval (mkvec4 1 1 1 1) /\
  1 <= depth_z swapped_uniforms (luminance (mkvec4 1 1 1 1)) <= 10000.
Proof.
  assert (Hc : rgb_in_unit_interval (mkvec4 1 1 1 1))
    by (repeat split; vm_compute; discriminate).
  split; [exact swapped_in_range|]. split; [exact Hc|].
  exact (depth_is_positive_in_slider_range swapped_controls
           (material_uniforms black) (mkvec4 1 1 1 1) swapped_in_range Hc).
Defined.

(** A larger radius never culls more. *)
Lemma distance_gt_antitone (p q : vec2) (r r' : Q) :
  r <= r' -> distance_gt p q r' = true -> distance_gt p q r = true.
Proof.
  intros Hr H. apply distance_gt_spec in H. apply distance_gt_spec.
  apply Qle_Rle in Hr. lra.
Qed.

(** The mask only grows with the radius: a vertex that is culled under one
    setting of the [circleRadius] slider is culled under every smaller one,
    whatever the other sliders and the texture are. *)
Theorem smaller_radius_culls_more (c c' : controls) (u : uniforms)
    (P MV : mat4) (position : vec3) :
  c_circleRadius c <= c_circleRadius c' ->
  distance_gt (uv u position) (mkvec2 0.5 0.5) (c_circleRadius c') = true ->
  main (apply_controls c' u) P MV position = culled_out u position /\
  main (apply_controls c u) P MV position = culled_out u position.
Proof.
  intros Hr H. split.
  - exact (main_culled (apply_controls c' u) P MV position H).
  - apply (main_culled (apply_controls c u) P MV position).
    exact (distance_gt_antitone _ _ _ _ Hr H).
Qed.

Lemma smaller_radius_culls_more_witness :
  let c := mkcontrols 850 4000 2 1000 0.3 in
  let u := material_uniforms black in
  let I := mkmat4 (mkvec4 1 0 0 0) (mkvec4 0 1 0 0) (mkvec4 0 0 1 0) (mkvec4 0 0 0 1) in
  c_circleRadius c <= c_circleRadius default_controls /\
  distance_gt (uv u (mkvec3 0 0 0)) (mkvec2 0.5 0.5)
    (c_circleRadius default_controls) = true /\
  main (apply_controls c u) I I (mkvec3 0 0 0) = culled_out u (mkvec3 0 0 0).
Proof.
  intros c u I.
  assert (Hr : c_circleRadius c <= c_circleRadius default_controls)
    by (vm_compute; discriminate).
  assert (H : distance_gt (uv u (mkvec3 0 0 0)) (mkvec2 0.5 0.5)
                (c_circleRadius default_controls) = true) by reflexivity.
  split; [exact Hr|]. split; [exact H|].
  exact (proj2 (smaller_radius_culls_more c default_controls u I I
                  (mkvec3 0 0 0) Hr H)).
Defined.

Lemma radius_squared_below_half (r : Q) : 0 <= r <= 0.7 -> r * r <= 0.49.
Proof.
  intros (H0 & H1).
  assert (0 <= (0.7 - r) * (0.7 + r)) by (apply Qmult_le_0_compat; lra).
  lra.
Qed.

(** Whatever the sliders are set to inside their ranges, the four corner
    points of the 640 x 480 grid are culled and its centre point is drawn:
    the largest radius of the slider, 0.7, is below the distance of the
    corners from the centre. *)
Theorem corners_are_always_culled (c : controls) (m : sampler2D)
    (P MV : mat4) (z : Q) :
  in_range c ->
  let u := apply_controls c (material_uniforms m) in
  (forall corner : vec3,
     In corner [mkvec3 0 0 z; mkvec3 639 0 z; mkvec3 0 479 z; mkvec3 639 479 z] ->
     main u P MV corner = culled_out u corner) /\
  gl_PointSize (main u P MV (mkvec3 320 240 z)) = c_pointSize c.
Proof.
  intros (_ & _ & _ & _ & Hr) u.
  pose proof (radius_squared_below_half _ Hr) as Hsq.
  split.
  - intros corner Hin. apply main_culled.
    unfold distance_gt. apply orb_true_iff. right. apply Qltb_lt.
    change (circleRadius u) with (c_circleRadius c).
    eapply Qle_lt_trans; [exact Hsq|].
    simpl in Hin.
    destruct Hin as [<- | [<- | [<- | [<- | []]]]]; reflexivity.
  - rewrite main_drawn; [reflexivity|].
    unfold distance_gt. apply orb_false_iff. split; apply Qltb_nlt.
    + change (circleRadius u) with (c_circleRadius c). lra.
    + change (circleRadius u) with (c_circleRadius c).
      change (distance2 (uv u (mkvec3 320 240 z)) (mkvec2 0.5 0.5))
        with (distance2 (mkvec2 (320 / 640) (240 / 480)) (mkvec2 0.5 0.5)).
      assert (E : distance2 (mkvec2 (320 / 640) (240 / 480)) (mkvec2 0.5 0.5) == 0)
        by reflexivity.
      rewrite E.
      destruct Hr as (H0 & _).
      assert (0 <= c_circleRadius c * c_circleRadius c)
        by (apply Qmult_le_0_compat; assumption).
      lra.
Qed.

Lemma corners_are_always_culled_witness :
  let u := apply_controls default_controls (material_uniforms black) in
  let I := mkmat4 (mkvec4 1 0 0 0) (mkvec4 0 1 0 0) (mkvec4 0 0 1 0) (mkvec4 0 0 0 1) in
  in_range default_controls /\
  main u I I (mkvec3 639 479 0) = culled_out u (mkvec3 639 479 0).
Proof.
  intros u I. split; [exact default_in_range|].
  apply (proj1 (corners_are_always_culled default_controls black I I 0
                  default_in_range)).
  right. right. right. left. reflexivity.
Defined.

Lemma mat4_mul_vec_assoc (a b : mat4) (v : vec4) :
  vec4_equiv (mat4_mul_vec (mat4_mul a b) v)
             (mat4_mul_vec a (mat4_mul_vec b v)).
Proof.
  unfold vec4_equiv, mat4_mul, mat4_mul_vec, vec4_add, vec4_scale; simpl.
  repeat split; ring.
Qed.

(** [projectionMatrix * modelViewMatrix * pos] is the projection of the view
    of [pos]: the clip position of a drawn vertex is the projection matrix
    applied to the model-view matrix applied to the reprojected point. *)
Theorem drawn_vertex_is_projected_view (u : uniforms) (P MV : mat4)
    (position : vec3) :
  distance_gt (uv u position) (mkvec2 0.5 0.5) (circleRadius u) = false ->
  vec4_equiv (gl_Position (main u P MV position))
    (mat4_mul_vec P
       (mat4_mul_vec MV
          (camera_pos u position
             (depth_z u (luminance (map u (uv u position))))))).
Proof.
  intros H. rewrite (main_drawn u P MV position H). cbn [gl_Position].
  apply mat4_mul_vec_assoc.
Qed.

Lemma drawn_vertex_is_projected_view_witness :
  let u := material_uniforms black in
  let P := mkmat4 (mkvec4 2 0 0 0) (mkvec4 0 2 0 0) (mkvec4 0 0 1 0) (mkvec4 0 0 0 1) in
  let MV := mkmat4 (mkvec4 1 0 0 0) (mkvec4 0 1 0 0) (mkvec4 0 0 1 0) (mkvec4 0 0 500 1) in
  distance_gt (uv u (mkvec3 320 240 0)) (mkvec2 0.5 0.5) (circleRadius u) = false /\
  vec4_equiv (gl_Position (main u P MV (mkvec3 320 240 0)))
    (mat4_mul_vec P (mat4_mul_vec MV
       (camera_pos u (mkvec3 320 240 0)
          (depth_z u (luminance (map u (uv u (mkvec3 320 240 0)))))))).
Proof.
  intros u P MV.
  assert (H : distance_gt (uv u (mkvec3 320 240 0)) (mkvec2 0.5 0.5)
                (circleRadius u) = false) by reflexivity.
  split; [exact H|].
  exact (drawn_vertex_is_projected_view u P MV (mkvec3 320 240 0) H).
Defined.

Lemma Qmult_unit_interval (a b : Q) :
  unit_interval a -> unit_interval b ->
  0 <= a * b /\ a * b <= a /\ a * b <= b.
Proof.
  unfold unit_interval. intros (Ha0 & Ha1) (Hb0 & Hb1).
  assert (0 <= a * b) by (apply Qmult_le_0_compat; assumption).
  assert (0 <= a * (1 - b)) by (apply Qmult_le_0_compat; lra).
  assert (0 <= (1 - a) * b) by (apply Qmult_le_0_compat; lra).
  repeat split; lra.
Qed.

(** The fragment shader only darkens: with the sample and the tint in
    [0, 1], every colour channel it writes is in [0, 1] and is at most the
    channel of the sample and at most the channel of the tint; the alpha it
    writes is 0.8 whatever the sample. *)
Theorem fragment_tint_only_darkens (m : sampler2D) (videoColor : vec3)
    (vUv : vec2) :
  rgb_in_unit_interval (m vUv) ->
  unit_interval (v3x videoColor) ->
  unit_interval (v3y videoColor) ->
  unit_interval (v3z videoColor) ->
  let out := fragment_main m videoColor vUv in
  (0 <= color_r out /\ color_r out <= color_r (m vUv) /\ color_r out <= v3x videoColor) /\
  (0 <= color_g out /\ color_g out <= color_g (m vUv) /\ color_g out <= v3y videoColor) /\
  (0 <= color_b out /\ color_b out <= color_b (m vUv) /\ color_b out <= v3z videoColor) /\
  v4w out = 0.8.
Proof.
  intros (Hr & Hg & Hb) Hx Hy Hz. cbv zeta.
  unfold fragment_main, color_r, color_g, color_b; cbn [v4x v4y v4z v4w].
  split; [exact (Qmult_unit_interval _ _ Hr Hx)|].
  split; [exact (Qmult_unit_interval _ _ Hg Hy)|].
  split; [exact (Qmult_unit_interval _ _ Hb Hz)|].
  reflexivity.
Qed.

Lemma fragment_tint_only_darkens_witness :
  let m : sampler2D := fun _ => mkvec4 (1 # 2) (1 # 2) (1 # 2) 1 in
  let tint := mkvec3 (1 # 85) 0 1 in
  rgb_in_unit_interval (m (mkvec2 0.5 0.5)) /\
  (unit_interval (v3x tint) /\ unit_interval (v3y tint) /\ unit_interval (v3z tint)) /\
  color_r (fragment_main m tint (mkvec2 0.5 0.5)) <= v3x tint.
Proof.
  intros m tint.
  assert (Hc : rgb_in_unit_interval (m (mkvec2 0.5 0.5)))
    by (repeat split; vm_compute; discriminate).
  assert (Hx : unit_interval (v3x tint)) by (split; vm_compute; discriminate).
  assert (Hy : unit_interval (v3y tint)) by (split; vm_compute; discriminate).
  assert (Hz : unit_interval (v3z tint)) by (split; vm_compute; discriminate).
  split; [exact Hc|]. split; [split; [exact Hx | split; [exact Hy | exact Hz]]|].
  exact (proj2 (proj2 (proj1
    (fragment_tint_only_darkens m tint (mkvec2 0.5 0.5) Hc Hx Hy Hz)))).
Defined.

(** No assignment of the component touches the [width] and [height]
    uniforms or, but for the controls effect, the slider values. *)
Lemma updates_size (os : list uniform_update) (u : uniforms) :
  width (updates os u) = width u /\ height (updates os u) = height u.
Proof.
  revert u. induction os as [|o os IH]; intros u; [split; reflexivity|].
  cbn [updates]. destruct (IH (update o u)) as (Hw & Hh).
  rewrite Hw, Hh. destruct o; split; reflexivity.
Qed.

End ShaderFacts.

(** ** The point grid *)

Module GridFacts.

Import Grid.
Open Scope nat_scope.

(** What the loop leaves in the array when it is entered with [i = 3 j]:
    the entries below [j] are kept, the entries from [j] on get their column
    and row, and no third component is touched. *)
Lemma fill_spec (width n : nat) :
  forall (fuel j : nat) (v : list Z),
    length v = 3 * n -> j <= n -> n - j < fuel ->
    exists v',
      fill fuel width (3 * n) (3 * j) j v = Some v' /\
      length v' = 3 * n /\
      (forall k, k < j ->
         v' !! (3 * k) = v !! (3 * k) /\ v' !! (3 * k + 1) = v !! (3 * k + 1)) /\
      (forall k, j <= k < n ->
         v' !! (3 * k) = Some (Z.of_nat (k mod width)) /\
         v' !! (3 * k + 1) = Some (Z.of_nat (k / width))) /\
      (forall k, v' !! (3 * k + 2) = v !! (3 * k + 2)).
Proof.
  induction fuel as [|fuel IH]; intros j v Hlen Hj Hfuel; [lia|].
  cbn [fill].
  destruct (Nat.ltb_spec (3 * j) (3 * n)) as [Hlt | Hge].
  - set (v1 := <[3 * j + 1 := Z.of_nat (j / width)]>
                 (<[3 * j := Z.of_nat (j mod width)]> v)).
    assert (Hlen1 : length v1 = 3 * n)
      by (unfold v1; rewrite !length_insert; exact Hlen).
    replace (3 * j + 3) with (3 * (j + 1)) by lia.
    destruct (IH (j + 1) v1 Hlen1 ltac:(lia) ltac:(lia))
      as (v' & Hrun & Hlen' & Hlow & Hhigh & Hthird).
    exists v'. split; [exact Hrun|]. split; [exact Hlen'|].
    assert (Hat0 : v1 !! (3 * j) = Some (Z.of_nat (j mod width))).
    { unfold v1. rewrite list_lookup_insert_ne by lia.
      apply list_lookup_insert_eq. lia. }
    assert (Hat1 : v1 !! (3 * j + 1) = Some (Z.of_nat (j / width))).
    { unfold v1. apply list_lookup_insert_eq. rewrite length_insert. lia. }
    assert (Hother : forall p, p <> 3 * j -> p <> 3 * j + 1 -> v1 !! p = v !! p).
    { intros p H0 H1. unfold v1.
      rewrite !list_lookup_insert_ne by lia. reflexivity. }
    split; [|split].
    + intros k Hk. destruct (Hlow k ltac:(lia)) as [Ha Hb].
      rewrite Ha, Hb, !Hother by lia. split; reflexivity.
    + intros k Hk. destruct (Nat.eq_dec k j) as [-> | Hne].
      * destruct (Hlow j ltac:(lia)) as [Ha Hb].
        rewrite Ha, Hb, Hat0, Hat1. split; reflexivity.
      * apply Hhigh. lia.
    + intros k. rewrite Hthird. apply Hother; lia.
  - exists v. split; [reflexivity|]. split; [exact Hlen|].
    split; [|split].
    + intros k Hk. split; reflexivity.
    + intros k Hk. lia.
    + intros k. reflexivity.
Qed.

(** The buffer for any grid size: the loop ends by its own condition. *)
Lemma vertices_spec (width height : nat) :
  exists v,
    vertices width height = Some v /\
    length v = width * height * 3 /\
    forall j, j < width * height ->
      v !! (j * 3) = Some (Z.of_nat (j mod width)) /\
      v !! (j * 3 + 1) = Some (Z.of_nat (j / width)) /\
      v !! (j * 3 + 2) = Some 0%Z.
Proof.
  unfold vertices. cbv zeta. rewrite length_replicate.
  set (n := width * height).
  replace (n * 3) with (3 * n) by lia.
  destruct (fill_spec width n (S (3 * n)) 0 (replicate (3 * n) 0%Z))
    as (v & Hrun & Hlen & _ & Hhigh & Hthird);
    [apply length_replicate | lia | lia |].
  exists v. split; [exact Hrun|]. split; [exact Hlen|].
  intros j Hj. replace (j * 3) with (3 * j) by lia.
  destruct (Hhigh j ltac:(lia)) as [Ha Hb].
  split; [exact Ha|]. split; [exact Hb|].
  rewrite Hthird. apply lookup_replicate_2. lia.
Qed.

(** The memo cell once it holds a value. *)
Lemma renders_cached {A : Type} (create : unit -> A) (n : nat) (m : memo A) (v : A) :
  cached m = Some v -> renders create n m = m.
Proof.
  revert m. induction n as [|n IH]; intros m H; [reflexivity|].
  cbn [renders]. unfold useMemo at 1. rewrite H. cbn [snd]. exact (IH m H).
Qed.

(** From an empty cell, any positive number of renders runs [create] once. *)
Lemma renders_once {A : Type} (create : unit -> A) (n : nat) :
  renders create (S n) (mkmemo None 0) = mkmemo (Some (create tt)) 1.
Proof.
  cbn [renders]. unfold useMemo at 1. cbn [cached computations snd].
  apply (renders_cached create n _ (create tt)). reflexivity.
Qed.

(** The attribute of the scene: its array, and what each entry holds. *)
Lemma position_attribute_spec :
  exists v : list Z,
    vertices 640 480 = Some v /\
    position_attribute = Some (mkBufferAttribute v 3) /\
    length v = 640 * 480 * 3 /\
    forall j : nat, j < 640 * 480 ->
      getXYZ (mkBufferAttribute v 3) j
      = Some (Z.of_nat (j mod 640), Z.of_nat (j / 640), 0%Z).
Proof.
  destruct (vertices_spec 640 480) as (v & Hv & Hlen & Hent).
  exists v. split; [exact Hv|]. split.
  - unfold position_attribute. rewrite Hv. reflexivity.
  - split; [exact Hlen|]. intros j Hj.
    unfold getXYZ, getX, getY, getZ. cbn [array itemSize].
    destruct (Hent j Hj) as (Hx & Hy & Hz).
    rewrite Hx, Hy, Hz. reflexivity.
Qed.

(** Every number of the buffer is an integer below [2^24], so that storing
    it in a [Float32Array] does not round it. *)
Lemma entries_fit_float32 (j : nat) (ex ey ez : Z) :
  j < 640 * 480 ->
  entry j = Some (ex, ey, ez) ->
  (0 <= ex < 2 ^ 24 /\ 0 <= ey < 2 ^ 24 /\ 0 <= ez < 2 ^ 24)%Z.
Proof.
  intros Hj. destruct position_attribute_spec as (v & _ & Hattr & _ & Hent).
  unfold entry. rewrite Hattr. cbn [mbind option_bind]. rewrite (Hent j Hj).
  pose proof (Nat.mod_upper_bound j 640 ltac:(discriminate)) as Hm.
  assert (Hd : j / 640 < 480) by (apply Nat.Div0.div_lt_upper_bound; lia).
  generalize dependent (j mod 640). generalize dependent (j / 640).
  intros d Hd m Hm [= <- <- <-].
  change (2 ^ 24)%Z with 16777216%Z.
  lia.
Qed.

(** C2: for width 640 and height 480 the generator returns a buffer of
    640 x 480 x 3 numbers, that is 640 x 480 entries of three components,
    and entry [j] is [(j mod 640, floor (j / 640), 0)] for every
    [j < 640 x 480].  The buffer is a function of the two sizes alone, and
    however often the component renders, [useMemo] runs the generator once
    and hands out that one buffer. *)
Theorem point_grid_640_480 :
  (length <$> vertices 640 480 = Some (640 * 480 * 3)) /\
  entries = Some (640 * 480) /\
  (forall j : nat, j < 640 * 480 ->
     entry j = Some (Z.of_nat (j mod 640), Z.of_nat (j / 640), 0%Z)) /\
  (forall renders_so_far : nat,
     computations (geometry_memo (S renders_so_far)) = 1 /\
     cached (geometry_memo (S renders_so_far)) = Some position_attribute).
Proof.
  destruct position_attribute_spec as (v & Hv & Hattr & Hlen & Hent).
  split; [|split; [|split]].
  - rewrite Hv. cbn [fmap option_fmap option_map]. rewrite Hlen. reflexivity.
  - unfold entries. rewrite Hattr. cbn [fmap option_fmap option_map].
    unfold count. cbn [array itemSize]. rewrite Hlen.
    rewrite Nat.div_mul by discriminate. reflexivity.
  - intros j Hj. unfold entry. rewrite Hattr. cbn [mbind option_bind].
    exact (Hent j Hj).
  - intros n. unfold geometry_memo. rewrite renders_once.
    split; reflexivity.
Qed.

(** Entry 641 is the second point of the second row. *)
Lemma point_grid_640_480_witness :
  641 < 640 * 480 /\
  entry 641 = Some (Z.of_nat (641 mod 640), Z.of_nat (641 / 640), 0%Z).
Proof.
  assert (H : 641 < 640 * 480) by lia.
  split; [exact H|].
  exact (proj1 (proj2 (proj2 point_grid_640_480)) 641 H).
Defined.

(** *** Further properties of the point buffer *)

(** What an entry that exists must be. *)
Lemma entry_inv (j : nat) (p : Z * Z * Z) :
  entry j = Some p ->
  j < 640 * 480 /\ p = (Z.of_nat (j mod 640), Z.of_nat (j / 640), 0%Z).
Proof.
  destruct position_attribute_spec as (v & _ & Hattr & Hlen & Hent).
  unfold entry. rewrite Hattr. cbn [mbind option_bind].
  destruct (Nat.lt_ge_cases j (640 * 480)) as [Hlt | Hge].
  - rewrite (Hent j Hlt). intros H. split; [exact Hlt|].
    symmetry. exact (Some_inj _ _ H).
  - unfold getXYZ, getX. cbn [array itemSize].
    rewrite (lookup_ge_None_2 v (j * 3)) by lia.
    cbn [mbind option_bind]. discriminate.
Qed.

Lemma entry_at (j : nat) :
  j < 640 * 480 ->
  entry j = Some (Z.of_nat (j mod 640), Z.of_nat (j / 640), 0%Z).
Proof.
  intros Hj. destruct position_attribute_spec as (v & _ & Hattr & _ & Hent).
  unfold entry. rewrite Hattr. cbn [mbind option_bind]. exact (Hent j Hj).
Qed.

(** Reading past the last point gives nothing, and only then: entry [j]
    exists exactly when [j < 640 x 480]. *)
Theorem entry_exists_iff_in_bounds (j : nat) :
  (entry j = None <-> 640 * 480 <= j) /\
  (is_Some (entry j) <-> j < 640 * 480).
Proof.
  split; split.
  - intros Hnone. destruct (Nat.lt_ge_cases j (640 * 480)) as [Hlt | Hge];
      [|exact Hge].
    rewrite (entry_at j Hlt) in Hnone. discriminate Hnone.
  - intros Hge. destruct (entry j) as [p|] eqn:E; [|reflexivity].
    apply entry_inv in E. lia.
  - intros [p Hp]. apply entry_inv in Hp. lia.
  - intros Hlt. rewrite (entry_at j Hlt). eexists. reflexivity.
Qed.

(** A point of the buffer determines its index: the point at index [j] is
    [(x, y, 0)] with [0 <= x < 640], [0 <= y < 480] and [j = 640 y + x], so
    no two indices hold the same point. *)
Theorem entry_determines_index (i j : nat) (x y z : Z) :
  entry j = Some (x, y, z) ->
  ((0 <= x < 640)%Z /\ (0 <= y < 480)%Z /\ z = 0%Z /\
   Z.of_nat j = (640 * y + x)%Z) /\
  (entry i = Some (x, y, z) -> i = j).
Proof.
  intros Hj. apply entry_inv in Hj. destruct Hj as (Hlt & Hp).
  pose proof (Nat.mod_upper_bound j 640 ltac:(discriminate)) as Hm.
  assert (Hd : j / 640 < 480) by (apply Nat.Div0.div_lt_upper_bound; lia).
  pose proof (Nat.div_mod_eq j 640) as Hdm.
  generalize dependent (j mod 640). generalize dependent (j / 640).
  intros dj Hdj mj Hp Hmj Hdmj.
  injection Hp as -> -> ->.
  split; [lia|].
  intros Hi. apply entry_inv in Hi. destruct Hi as (_ & Hq).
  pose proof (Nat.div_mod_eq i 640) as Hdmi.
  generalize dependent (i mod 640). generalize dependent (i / 640).
  intros di mi Hq Hdmi.
  injection Hq as Hq1 Hq2. lia.
Qed.

Lemma entry_determines_index_witness :
  entry 641 = Some (1%Z, 1%Z, 0%Z) /\
  Z.of_nat 641 = (640 * 1 + 1)%Z.
Proof.
  assert (H : entry 641 = Some (1%Z, 1%Z, 0%Z))
    by (rewrite (entry_at 641) by lia; reflexivity).
  split; [exact H|].
  exact (proj2 (proj2 (proj2 (proj1
    (entry_determines_index 0 641 1 1 0 H))))).
Defined.

(** Every cell of the 640 x 480 grid has its point: column [x] of row [y]
    is entry [640 y + x]. *)
Theorem every_cell_has_its_point (x y : nat) :
  x < 640 -> y < 480 ->
  entry (y * 640 + x) = Some (Z.of_nat x, Z.of_nat y, 0%Z).
Proof.
  intros Hx Hy.
  rewrite (entry_at (y * 640 + x)) by lia.
  rewrite Nat.add_comm, Nat.Div0.mod_add, Nat.div_add by discriminate.
  rewrite (Nat.mod_small x 640 Hx), (Nat.div_small x 640 Hx).
  reflexivity.
Qed.

Lemma every_cell_has_its_point_witness :
  (639 < 640 /\ 479 < 480) /\
  entry (479 * 640 + 639) = Some (Z.of_nat 639, Z.of_nat 479, 0%Z).
Proof.
  assert (Hx : 639 < 640) by lia.
  assert (Hy : 479 < 480) by lia.
  split; [split; [exact Hx | exact Hy]|].
  exact (every_cell_has_its_point 639 479 Hx Hy).
Defined.

End GridFacts.

(** ** The camera *)

Module CameraFacts.

Import Camera.
Open Scope Q_scope.

(** One frame leaves 99% of the offset to the target, on either axis. *)
Lemma frame_offset_x (s : state) :
  x (position (frame s)) - target_x (frame s)
  == 0.99 * (x (position s) - target_x s).
Proof. unfold frame, target_x; simpl. ring. Qed.

Lemma frame_offset_y (s : state) :
  y (position (frame s)) - target_y (frame s)
  == 0.99 * (y (position s) - target_y s).
Proof. unfold frame, target_y; simpl. ring. Qed.

Lemma Qabs_scale (a : Q) : Qabs (0.99 * a) == 0.99 * Qabs a.
Proof. rewrite Qabs_Qmult. reflexivity. Qed.

Lemma Qabs_pos_iff (a : Q) : ~ a == 0 -> 0 < Qabs a.
Proof.
  intros Ha. apply Qabs_case; intros H.
  - destruct (Qlt_le_dec 0 a) as [Hlt | Hle]; [exact Hlt|].
    exfalso. apply Ha. lra.
  - destruct (Qlt_le_dec a 0) as [Hlt | Hle]; [lra|].
    exfalso. apply Ha. lra.
Qed.

Lemma frame_distance_x (s : state) :
  distance_x (frame s) == 0.99 * distance_x s.
Proof. unfold distance_x. rewrite frame_offset_x. apply Qabs_scale. Qed.

Lemma frame_distance_y (s : state) :
  distance_y (frame s) == 0.99 * distance_y s.
Proof. unfold distance_y. rewrite frame_offset_y. apply Qabs_scale. Qed.

(** After [n] frames with the pointer at rest the offset is [0.99 ^ n] of
    what it was: the camera converges to the target. *)
Lemma frames_distance_x (n : nat) (s : state) :
  distance_x (frames n s) == 0.99 ^ Z.of_nat n * distance_x s.
Proof.
  revert s. induction n as [|n IH]; intros s.
  - simpl. ring.
  - cbn [frames]. rewrite IH, frame_distance_x.
    rewrite Nat2Z.inj_succ, <- Z.add_1_r.
    rewrite Qpower_plus by (intros E; discriminate E). simpl. ring.
Qed.

Lemma frames_distance_y (n : nat) (s : state) :
  distance_y (frames n s) == 0.99 ^ Z.of_nat n * distance_y s.
Proof.
  revert s. induction n as [|n IH]; intros s.
  - simpl. ring.
  - cbn [frames]. rewrite IH, frame_distance_y.
    rewrite Nat2Z.inj_succ, <- Z.add_1_r.
    rewrite Qpower_plus by (intros E; discriminate E). simpl. ring.
Qed.

(** C4, as the specification words it, fails in the very first frame: the
    camera starts at [x = y = 0] and the pointer target at [(0, 0)], so both
    distances are 0 before the frame and 0 after it. *)
Lemma camera_at_target_does_not_get_closer :
  distance_x initial == 0 /\
  distance_x (frame initial) == 0 /\
  ~ distance_x (frame initial) < distance_x initial /\
  ~ distance_y (frame initial) < distance_y initial.
Proof.
  split; [reflexivity|]. split; [reflexivity|].
  split; intros H; vm_compute in H; discriminate H.
Qed.

(** C4 (amended): a frame leaves the pointer target as it is and moves the
    camera, on each axis, one hundredth of the way to its target ([target.x]
    for [x], [- target.y] for [y]).  The camera never passes the target, its
    distance to the target never grows, and the distance strictly decreases
    on every axis on which the camera is not at the target yet. *)
Theorem camera_ease_never_overshoots (s : state) :
  mouse (frame s) = mouse s /\
  (distance_x (frame s) == 0.99 * distance_x s /\
   distance_y (frame s) == 0.99 * distance_y s) /\
  (distance_x (frame s) <= distance_x s /\
   distance_y (frame s) <= distance_y s) /\
  ((x (position s) <= target_x s -> x (position (frame s)) <= target_x s) /\
   (target_x s <= x (position s) -> target_x s <= x (position (frame s))) /\
   (y (position s) <= target_y s -> y (position (frame s)) <= target_y s) /\
   (target_y s <= y (position s) -> target_y s <= y (position (frame s)))) /\
  (~ x (position s) == target_x s -> distance_x (frame s) < distance_x s) /\
  (~ y (position s) == target_y s -> distance_y (frame s) < distance_y s).
Proof.
  pose proof (frame_distance_x s) as Hx.
  pose proof (frame_distance_y s) as Hy.
  pose proof (Qabs_nonneg (x (position s) - target_x s)) as Hx0.
  pose proof (Qabs_nonneg (y (position s) - target_y s)) as Hy0.
  fold (distance_x s) in Hx0. fold (distance_y s) in Hy0.
  split; [reflexivity|]. split; [split; assumption|].
  split; [split; lra|]. split.
  - unfold frame, target_x, target_y; simpl. repeat split; intros H; lra.
  - split; intros Hne.
    + assert (0 < distance_x s)
        by (apply Qabs_pos_iff; intros E; apply Hne; lra).
      lra.
    + assert (0 < distance_y s)
        by (apply Qabs_pos_iff; intros E; apply Hne; lra).
      lra.
Qed.

(** The pointer moved to the right of the centre of an 800 x 600 window. *)
Lemma camera_ease_never_overshoots_witness :
  let s := handleMouseMove 500 300 800 600 initial in
  ~ x (position s) == target_x s /\
  distance_x (frame s) < distance_x s.
Proof.
  intros s.
  assert (Hne : ~ x (position s) == target_x s)
    by (intros E; vm_compute in E; discriminate E).
  split; [exact Hne|].
  exact (proj1 (proj2 (proj2 (proj2 (proj2
    (camera_ease_never_overshoots s))))) Hne).
Defined.

(** In binary64 the step is eventually absorbed by rounding: with the
    pointer at rest 100 pixels right of the centre (target 800) the camera
    stops at 799.9999999999943 after 3230 frames. *)
Import PrimFloat.

Lemma ease_binary64_stalls :
  eases_binary64 3230 0 800 = 0x1.8ffffffffffcep+9%float /\
  ease_binary64 0x1.8ffffffffffcep+9 800 = 0x1.8ffffffffffcep+9%float /\
  PrimFloat.ltb 0x1.8ffffffffffcep+9 800 = true.
Proof. split; [|split]; vm_compute; reflexivity. Qed.

(** *** Further properties of the camera *)

Lemma pow99_succ (n : nat) :
  0.99 ^ Z.of_nat (S n) == 0.99 * 0.99 ^ Z.of_nat n.
Proof.
  rewrite Nat2Z.inj_succ, <- Z.add_1_r.
  rewrite Qpower_plus by (intros E; discriminate E). simpl. ring.
Qed.

Lemma pow99_range (n : nat) : 0 <= 0.99 ^ Z.of_nat n <= 1.
Proof.
  induction n as [|n (IH0 & IH1)].
  - split; discriminate.
  - rewrite pow99_succ.
    assert (0 <= 0.99 * 0.99 ^ Z.of_nat n)
      by (apply Qmult_le_0_compat; [discriminate | exact IH0]).
    split; lra.
Qed.

Lemma inject_nat_succ (n : nat) :
  inject_Z (Z.of_nat (S n)) == inject_Z (Z.of_nat n) + 1.
Proof. rewrite Nat2Z.inj_succ, <- Z.add_1_r, inject_Z_plus. reflexivity. Qed.

Lemma inject_nat_nonneg (n : nat) : 0 <= inject_Z (Z.of_nat n).
Proof.
  change 0 with (inject_Z 0). rewrite <- Zle_Qle. apply Nat2Z.is_nonneg.
Qed.

(** The powers of 0.99 fall at least like [99 / (99 + n)]. *)
Lemma pow99_bound (n : nat) :
  0.99 ^ Z.of_nat n * (99 + inject_Z (Z.of_nat n)) <= 99.
Proof.
  induction n as [|n IH].
  - discriminate.
  - rewrite pow99_succ, inject_nat_succ.
    pose proof (pow99_range n) as (Hp & _).
    pose proof (inject_nat_nonneg n) as Hn.
    assert (0 <= 0.99 ^ Z.of_nat n * inject_Z (Z.of_nat n))
      by (apply Qmult_le_0_compat; assumption).
    set (p := 0.99 ^ Z.of_nat n) in *. set (k := inject_Z (Z.of_nat n)) in *.
    assert (E : 0.99 * p * (99 + (k + 1)) == p * (99 + k) - 0.01 * (p * k))
      by ring.
    rewrite E. lra.
Qed.

(** Signed offsets after [n] frames. *)
Lemma frames_offset_x (n : nat) (s : state) :
  x (position (frames n s)) - target_x s
  == 0.99 ^ Z.of_nat n * (x (position s) - target_x s).
Proof.
  revert s. induction n as [|n IH]; intros s.
  - simpl. ring.
  - cbn [frames]. rewrite pow99_succ.
    change (target_x s) with (target_x (frame s)) at 1.
    rewrite IH, frame_offset_x. ring.
Qed.

Lemma frames_offset_y (n : nat) (s : state) :
  y (position (frames n s)) - target_y s
  == 0.99 ^ Z.of_nat n * (y (position s) - target_y s).
Proof.
  revert s. induction n as [|n IH]; intros s.
  - simpl. ring.
  - cbn [frames]. rewrite pow99_succ.
    change (target_y s) with (target_y (frame s)) at 1.
    rewrite IH, frame_offset_y. ring.
Qed.

Lemma frames_keep (n : nat) (s : state) :
  mouse (frames n s) = mouse s /\ z (position (frames n s)) = z (position s).
Proof.
  revert s. induction n as [|n IH]; intros s; [split; reflexivity|].
  cbn [frames]. destruct (IH (frame s)) as (Hm & Hz).
  rewrite Hm, Hz. split; reflexivity.
Qed.

(** With the pointer at rest the camera decays exponentially to the target:
    after [n] frames its offset on either axis is [0.99 ^ n] times the
    offset it started with, and neither its depth nor the target moved. *)
Theorem camera_offset_after_frames (n : nat) (s : state) :
  x (position (frames n s)) - target_x s
  == 0.99 ^ Z.of_nat n * (x (position s) - target_x s) /\
  y (position (frames n s)) - target_y s
  == 0.99 ^ Z.of_nat n * (y (position s) - target_y s) /\
  z (position (frames n s)) = z (position s) /\
  mouse (frames n s) = mouse s.
Proof.
  destruct (frames_keep n s) as (Hm & Hz).
  split; [apply frames_offset_x|]. split; [apply frames_offset_y|].
  split; assumption.
Qed.

Lemma between_scaled (c a t b : Q) :
  0 <= c <= 1 -> b - t == c * (a - t) ->
  (a <= t -> a <= b <= t) /\ (t <= a -> t <= b <= a).
Proof.
  intros (Hc0 & Hc1) E. split; intros H.
  - assert (0 <= c * (t - a)) by (apply Qmult_le_0_compat; lra).
    assert (0 <= (1 - c) * (t - a)) by (apply Qmult_le_0_compat; lra).
    assert (E1 : c * (a - t) == - (c * (t - a))) by ring.
    assert (E2 : (1 - c) * (t - a) == (t - a) - c * (t - a)) by ring.
    split; lra.
  - assert (0 <= c * (a - t)) by (apply Qmult_le_0_compat; lra).
    assert (0 <= (1 - c) * (a - t)) by (apply Qmult_le_0_compat; lra).
    assert (E2 : (1 - c) * (a - t) == (a - t) - c * (a - t)) by ring.
    split; lra.
Qed.

(** However many frames are rendered with the pointer at rest, the camera
    stays between where it started and its target on both axes: it never
    passes the target and never moves away from it. *)
Theorem camera_stays_between_start_and_target (n : nat) (s : state) :
  ((x (position s) <= target_x s ->
    x (position s) <= x (position (frames n s)) <= target_x s) /\
   (target_x s <= x (position s) ->
    target_x s <= x (position (frames n s)) <= x (position s))) /\
  ((y (position s) <= target_y s ->
    y (position s) <= y (position (frames n s)) <= target_y s) /\
   (target_y s <= y (position s) ->
    target_y s <= y (position (frames n s)) <= y (position s))).
Proof.
  split.
  - exact (between_scaled _ _ _ _ (pow99_range n) (frames_offset_x n s)).
  - exact (between_scaled _ _ _ _ (pow99_range n) (frames_offset_y n s)).
Qed.

Lemma camera_stays_between_start_and_target_witness :
  let s := handleMouseMove 500 300 800 600 initial in
  x (position s) <= target_x s /\
  x (position s) <= x (position (frames 3 s)) <= target_x s.
Proof.
  intros s.
  assert (H : x (position s) <= target_x s) by (vm_compute; discriminate).
  split; [exact H|].
  exact (proj1 (proj1 (camera_stays_between_start_and_target 3 s)) H).
Defined.

(** After enough frames a distance is below any bound. *)
Lemma pow99_eventually_small (d eps : Q) :
  0 <= d -> 0 < eps ->
  exists N : nat, forall n : nat, (N <= n)%nat -> 0.99 ^ Z.of_nat n * d < eps.
Proof.
  intros Hd Heps.
  set (q := 99 * d / eps).
  assert (Hq : 0 <= q).
  { unfold q. apply Qle_shift_div_l; [exact Heps|].
    assert (0 <= 99 * d) by (apply Qmult_le_0_compat; [discriminate | exact Hd]).
    lra. }
  assert (Hqe : q * eps == 99 * d).
  { unfold q. field. intros E. rewrite E in Heps. discriminate Heps. }
  exists (Z.to_nat (Qceiling q)). intros n Hn.
  assert (Hc : (0 <= Qceiling q)%Z).
  { apply Z.le_trans with (Qceiling 0); [discriminate|].
    apply Qceiling_resp_le. exact Hq. }
  assert (Hqn : q <= inject_Z (Z.of_nat n)).
  { apply Qle_trans with (inject_Z (Qceiling q)); [apply Qle_ceiling|].
    rewrite <- Zle_Qle. lia. }
  pose proof (pow99_bound n) as Hb.
  pose proof (pow99_range n) as (Hp0 & _).
  pose proof (inject_nat_nonneg n) as Hk.
  set (p := 0.99 ^ Z.of_nat n) in *. set (k := inject_Z (Z.of_nat n)) in *.
  assert (Hpos : 0 < 99 + k) by lra.
  apply (proj1 (Qmult_lt_r _ _ (99 + k) Hpos)).
  assert (H1 : 0 <= (99 - p * (99 + k)) * d)
    by (apply Qmult_le_0_compat; lra).
  assert (H2 : 0 <= (k - q) * eps)
    by (apply Qmult_le_0_compat; lra).
  assert (E1 : (99 - p * (99 + k)) * d == 99 * d - p * d * (99 + k)) by ring.
  assert (E2 : (k - q) * eps == k * eps - q * eps) by ring.
  assert (E3 : eps * (99 + k) == 99 * eps + k * eps) by ring.
  lra.
Qed.

(** The camera converges: with the pointer at rest, for every bound
    [eps > 0] there is a number of frames after which the camera is, and
    stays, within [eps] of its target on both axes. *)
Theorem camera_converges_to_target (s : state) (eps : Q) :
  0 < eps ->
  exists N : nat, forall n : nat, (N <= n)%nat ->
    distance_x (frames n s) < eps /\ distance_y (frames n s) < eps.
Proof.
  intros Heps.
  destruct (pow99_eventually_small (distance_x s) eps
              (Qabs_nonneg _) Heps) as (Nx & Hx).
  destruct (pow99_eventually_small (distance_y s) eps
              (Qabs_nonneg _) Heps) as (Ny & Hy).
  exists (Nx + Ny)%nat. intros n Hn. split.
  - rewrite frames_distance_x. apply Hx. lia.
  - rewrite frames_distance_y. apply Hy. lia.
Qed.

Lemma camera_converges_to_target_witness :
  0 < 1 # 1000 /\
  exists N : nat, forall n : nat, (N <= n)%nat ->
    distance_x (frames n (handleMouseMove 500 300 800 600 initial)) < 1 # 1000.
Proof.
  assert (Heps : 0 < 1 # 1000) by reflexivity.
  split; [exact Heps|].
  destruct (camera_converges_to_target
              (handleMouseMove 500 300 800 600 initial) (1 # 1000) Heps)
    as (N & HN).
  exists N. intros n Hn. exact (proj1 (HN n Hn)).
Defined.

Lemma step_keeps_depth (e : event) (s : state) :
  z (position (step e s)) = z (position s) /\
  z (mouse (step e s)) = z (mouse s).
Proof. destruct e; split; reflexivity. Qed.

(** Neither the pointer nor the frames move the camera in depth: after any
    sequence of pointer moves and frames the camera is still at [z = 500]
    and the third component of the pointer target is still 1. *)
Theorem camera_depth_never_changes (trace : list event) :
  z (position (run trace initial)) = 500 /\
  z (mouse (run trace initial)) = 1.
Proof.
  assert (G : forall s, z (position (run trace s)) = z (position s) /\
                        z (mouse (run trace s)) = z (mouse s)).
  { induction trace as [|e trace IH]; intros s; [split; reflexivity|].
    cbn [run]. destruct (IH (step e s)) as (Hp & Hm).
    destruct (step_keeps_depth e s) as (Hp' & Hm').
    rewrite Hp, Hm, Hp', Hm'. split; reflexivity. }
  exact (G initial).
Qed.

(** A pointer move only sets the target: eight times the offset of the
    pointer from the centre of the window, with the vertical axis turned
    over.  The camera stays where it is, an earlier pointer move is
    forgotten, and the next frame moves the camera by one hundredth of the
    way to the new target. *)
Theorem pointer_move_retargets_camera (clientX clientY innerWidth innerHeight : Q)
    (s : state) :
  let s' := handleMouseMove clientX clientY innerWidth innerHeight s in
  position s' = position s /\
  target_x s' == 8 * (clientX - innerWidth / 2) /\
  target_y s' == - (8 * (clientY - innerHeight / 2)) /\
  (forall cx cy w h : Q,
     handleMouseMove clientX clientY innerWidth innerHeight
       (handleMouseMove cx cy w h s) = s') /\
  x (position (frame s')) - x (position s)
  == 0.01 * (8 * (clientX - innerWidth / 2) - x (position s)) /\
  y (position (frame s')) - y (position s)
  == 0.01 * (- (8 * (clientY - innerHeight / 2)) - y (position s)).
Proof.
  cbv zeta. unfold handleMouseMove, frame, target_x, target_y; simpl.
  split; [reflexivity|]. split; [ring|]. split; [ring|].
  split; [reflexivity|]. split; ring.
Qed.

End CameraFacts.

(** ** The video source *)

Module VideoFacts.

Import Video.
Open Scope string_scope.

Lemma registered_add (l : listener) (ls : list listener) :
  registered l (addEventListener (fst l) (snd l) ls) = true.
Proof.
  destruct l as [t f]. unfold addEventListener; simpl.
  destruct (registered (t, f) ls) eqn:E; [exact E|].
  unfold registered. rewrite existsb_app; simpl.
  unfold listener_eqb. rewrite bool_decide_eq_true_2 by reflexivity.
  rewrite orb_true_r. reflexivity.
Qed.

Lemma registered_remove (l : listener) (ls : list listener) :
  registered l (removeEventListener (fst l) (snd l) ls) = false.
Proof.
  destruct l as [t f]. unfold removeEventListener, registered; simpl.
  induction ls as [|a ls IH]; [reflexivity|].
  simpl. destruct (listener_eqb (t, f) a) eqn:E; simpl.
  - exact IH.
  - rewrite E. exact IH.
Qed.

Lemma mounted_inv_mount (p : bool) : mounted_inv (step (Mount p) initial).
Proof.
  unfold mounted_inv; simpl. split; [reflexivity|]. split.
  - eexists. repeat split; reflexivity.
  - repeat split. left. reflexivity.
Qed.

Lemma mounted_inv_step (e : event) (w : world) :
  mounted_inv w -> mounted_inv (step e w).
Proof.
  destruct w as [ph vle vp vref pa verr vls body dls tex ipp cpp calls].
  unfold mounted_inv; simpl.
  intros (Href & (texture & Htex & Hmin & Hmag & Hmip & Hdis) & Hph).
  subst vref tex.
  destruct ph; [contradiction| |];
    destruct Hph as (Hvls & Hbody & [Hdls | Hdls]); subst vls body dls;
    destruct e as [p|r| |r|err| |b|]; simpl;
    try destruct r; try destruct ipp; try destruct cpp; try destruct pa;
    simpl;
    (split; [reflexivity|]);
    (split; [eexists; repeat split; eauto|]);
    repeat split; auto.
Qed.

Lemma mounted_inv_run (trace : list event) (w : world) :
  mounted_inv w -> mounted_inv (run trace w).
Proof.
  revert w. induction trace as [|e trace IH]; intros w H; [exact H|].
  simpl. apply IH, mounted_inv_step, H.
Qed.

Lemma reachable_inv (w : world) : reachable w -> mounted_inv w.
Proof.
  intros (p & trace & ->). cbn [run].
  apply mounted_inv_run, mounted_inv_mount.
Qed.

Lemma autoplay_blocked_reachable : reachable autoplay_blocked.
Proof. exists true, [InitialPlaySettled (Rejected None)]. reflexivity. Qed.

#[local] Arguments click_error_text : simpl never.
#[local] Arguments video_error_text : simpl never.
#[local] Arguments autoplay_blocked_text : simpl never.


Lemma click_error_text_not_empty (m : option string) :
  String.eqb (click_error_text m) "" = false.
Proof. destruct m; reflexivity. Qed.



(** A retry that fails leaves the handler on the document, so that the next
    click tries again. *)
Lemma click_handler_stays_after_failed_retry (m : option string) :
  let failed :=
    run [DocumentClick; ClickPlaySettled (Rejected m)] autoplay_blocked in
  registered (click, playOnClick) (document_listeners failed) = true /\
  play_calls (step DocumentClick failed) = S (play_calls failed).
Proof. split; reflexivity. Qed.

Lemma just_mounted_reachable : reachable just_mounted.
Proof. exists true, []. reflexivity. Qed.


(** C9: a click that finds the retry handler registered and the video not
    paused removes the handler and does nothing else: [play()] is not
    called, no promise is created, and the React state, hence the playback
    state and the overlay, stay as they were. *)
Theorem click_on_running_video_only_deregisters (w : world) :
  reachable w ->
  registered (click, playOnClick) (document_listeners w) = true ->
  paused w = false ->
  let w' := step DocumentClick w in
  registered (click, playOnClick) (document_listeners w') = false /\
  document_listeners w'
  = removeEventListener click playOnClick (document_listeners w) /\
  play_calls w' = play_calls w /\
  click_play_pending w' = click_play_pending w /\
  videoLoadError w' = videoLoadError w /\
  videoPlaying w' = videoPlaying w /\
  playback w' = playback w /\
  overlay w' = overlay w.
Proof.
  intros Hreach Hreg Hpaused. apply reachable_inv in Hreach.
  destruct Hreach as (Href & _ & _).
  cbv zeta. unfold step. rewrite Hreg.
  unfold run_playOnClick. rewrite Href, Hpaused. cbn [andb negb].
  split; [apply (registered_remove (click, playOnClick))|].
  repeat split; reflexivity.
Qed.

Lemma click_on_running_video_only_deregisters_witness :
  (reachable blocked_but_playing /\
   registered (click, playOnClick) (document_listeners blocked_but_playing) = true /\
   paused blocked_but_playing = false) /\
  play_calls (step DocumentClick blocked_but_playing)
  = play_calls blocked_but_playing /\
  overlay (step DocumentClick blocked_but_playing) = Some autoplay_blocked_text.
Proof.
  assert (Hreach : reachable blocked_but_playing)
    by (exists true,
          [InitialPlaySettled (Rejected None); VideoPausedChange false];
        reflexivity).
  split; [split; [exact Hreach | split; reflexivity]|].
  destruct (click_on_running_video_only_deregisters blocked_but_playing
              Hreach eq_refl eq_refl)
    as (_ & _ & Hcalls & _ & _ & _ & _ & Hoverlay).
  split; [exact Hcalls | rewrite Hoverlay; reflexivity].
Defined.

(** [includes] finds what is there. *)
Lemma append_assoc (a b c : string) : (a ++ b) ++ c = a ++ b ++ c.
Proof. induction a as [|x a IH]; simpl; [reflexivity | rewrite IH; reflexivity]. Qed.

Lemma prefix_app (needle rest : string) : String.prefix needle (needle ++ rest) = true.
Proof.
  induction needle as [|c needle IH]; simpl.
  - destruct rest; reflexivity.
  - destruct (Ascii.ascii_dec c c) as [_|Hne]; [exact IH | contradiction].
Qed.

Lemma includes_prefix (needle haystack : string) :
  String.prefix needle haystack = true -> includes needle haystack = true.
Proof. intros H. destruct haystack; cbn [includes]; rewrite H; reflexivity. Qed.

Lemma includes_app (before needle after : string) :
  includes needle (before ++ needle ++ after) = true.
Proof.
  induction before as [|c before IH].
  - change ("" ++ needle ++ after) with (needle ++ after).
    apply includes_prefix. apply prefix_app.
  - cbn [String.append includes]. rewrite IH. apply orb_true_r.
Qed.

(** The text of the error overlay holds the code, unless it is 0, and the
    message of the error. *)
Lemma video_error_text_includes (e : MediaError) :
  (code e <> 0%N ->
   includes (number_to_string (code e)) (video_error_text (Some e)) = true) /\
  includes (message e) (video_error_text (Some e)) = true.
Proof.
  unfold video_error_text.
  split.
  - intros Hc. unfold error_code_text. apply N.eqb_neq in Hc. rewrite Hc.
    apply includes_app.
  - rewrite <- (append_assoc (error_code_text (Some e))).
    rewrite <- append_assoc.
    unfold error_message_text, string_or.
    destruct (String.eqb_spec (message e) "") as [-> | _].
    + apply includes_prefix. destruct (_ ++ _); reflexivity.
    + apply includes_app.
Qed.

(** C7: when the video of a mounted component fires an error event and its
    error has code 4 and message "format not supported", the component
    renders the overlay, and the text of the overlay contains "4" and
    "format not supported". *)
Theorem error_overlay_shows_code_and_message (w : world) :
  reachable w ->
  phase w = Mounted ->
  let w' := step (VideoErrorEvent (Some format_not_supported)) w in
  exists text : string,
    overlay w' = Some text /\
    text = "Не удалось загрузить видео. Код ошибки: 4. Сообщение: format not supported Попробуйте кликнуть по экрану." /\
    includes "4" text = true /\
    includes "format not supported" text = true.
Proof.
  intros Hreach Hphase. apply reachable_inv in Hreach.
  destruct w as [ph vle vp vref pa verr vls body dls tex ipp cpp calls].
  unfold mounted_inv in Hreach; simpl in *. subst ph.
  destruct Hreach as (_ & _ & Hvls & _ & _). subst vls.
  cbv zeta. eexists. split; [reflexivity|].
  split; [reflexivity|]. split; reflexivity.
Qed.

Lemma error_overlay_shows_code_and_message_witness :
  (reachable just_mounted /\ phase just_mounted = Mounted) /\
  exists text : string,
    overlay (step (VideoErrorEvent (Some format_not_supported)) just_mounted)
    = Some text /\
    includes "4" text = true /\
    includes "format not supported" text = true.
Proof.
  split; [split; [exact just_mounted_reachable | reflexivity]|].
  destruct (error_overlay_shows_code_and_message just_mounted
              just_mounted_reachable eq_refl)
    as (text & Hoverlay & _ & Hcode & Hmessage).
  exists text. split; [exact Hoverlay|]. split; [exact Hcode | exact Hmessage].
Defined.

(** The two assignments of the setup, on any texture. *)
Lemma configure_spec (texture : VideoTexture) :
  minFilter (configure texture) = NearestFilter /\
  generateMipmaps (configure texture) = false /\
  magFilter (configure texture) = magFilter texture /\
  disposed (configure texture) = disposed texture.
Proof. repeat split; reflexivity. Qed.

(** C8, as the specification words it, fails: the setup assigns the
    minification filter only, and the magnification filter of the texture
    of a mounted component is still the linear one the constructor chose. *)
Lemma magnification_filter_stays_linear :
  textureRef_current just_mounted = Some (configure new_VideoTexture) /\
  magFilter (configure new_VideoTexture) = LinearFilter /\
  ~ nearest_for_all_sampling (configure new_VideoTexture).
Proof.
  split; [reflexivity|]. split; [reflexivity|].
  intros [_ H]. discriminate H.
Qed.

(** C8 (amended): in every world after the mount the video texture has the
    nearest filter for minification and mipmap generation switched off; its
    magnification filter is the one the constructor gave it. *)
Theorem video_texture_filters (w : world) :
  reachable w ->
  exists texture : VideoTexture,
    textureRef_current w = Some texture /\
    minFilter texture = NearestFilter /\
    generateMipmaps texture = false /\
    magFilter texture = magFilter new_VideoTexture.
Proof.
  intros Hreach. apply reachable_inv in Hreach.
  destruct Hreach as (_ & (texture & Htex & Hmin & Hmag & Hmip & _) & _).
  exists texture. repeat split; assumption.
Qed.

Lemma video_texture_filters_witness :
  reachable autoplay_blocked /\
  exists texture : VideoTexture,
    textureRef_current autoplay_blocked = Some texture /\
    minFilter texture = NearestFilter /\
    generateMipmaps texture = false.
Proof.
  split; [exact autoplay_blocked_reachable|].
  destruct (video_texture_filters autoplay_blocked autoplay_blocked_reachable)
    as (texture & Htex & Hmin & Hmip & _).
  exists texture. split; [exact Htex|]. split; [exact Hmin | exact Hmip].
Defined.

(** What the cleanup does release, in every world it can run in: the two
    listeners of the video, the [mousemove] listener, the element and the
    texture.  The teardown is complete when no click handler is registered
    at that moment. *)
Lemma unmount_releases_all_but_click_handler (w : world) :
  reachable w ->
  phase w = Mounted ->
  let w' := step Unmount w in
  video_listeners w' = [] /\
  body_contains_video w' = false /\
  (forall texture, textureRef_current w' = Some texture -> disposed texture = true) /\
  registered (mousemove, handleMouseMove) (document_listeners w') = false /\
  registered (click, playOnClick) (document_listeners w')
  = registered (click, playOnClick) (document_listeners w) /\
  (registered (click, playOnClick) (document_listeners w) = false -> released w').
Proof.
  intros Hreach Hphase.
  apply reachable_inv in Hreach.
  destruct w as [ph vle vp vref pa verr vls body dls tex ipp cpp calls].
  unfold mounted_inv in Hreach; simpl in *. subst ph.
  destruct Hreach as (_ & (texture & Htex & _) & Hvls & Hbody & Hdls).
  subst vls body tex.
  cbv zeta; unfold released, listeners; simpl.
  destruct Hdls as [-> | ->]; simpl;
    repeat split; try reflexivity; try discriminate;
    intros t Ht; injection Ht as <-; reflexivity.
Qed.

(** C6 on the code: the autoplay is blocked and the component is unmounted
    before any click.  The cleanup cannot name [playOnClick], so the handler
    stays on the document; the resources are not all released, and the next
    click still runs the handler, which calls [play()] on the removed
    video. *)
Theorem unmount_leaves_click_handler :
  reachable unmounted_while_blocked /\
  phase unmounted_while_blocked = Unmounted /\
  document_listeners unmounted_while_blocked = [(click, playOnClick)] /\
  ~ released unmounted_while_blocked /\
  play_calls (step DocumentClick unmounted_while_blocked)
  = S (play_calls unmounted_while_blocked).
Proof.
  split.
  { exists true, [InitialPlaySettled (Rejected None); Unmount]. reflexivity. }
  split; [reflexivity|]. split; [reflexivity|]. split; [|reflexivity].
  intros (H & _). discriminate H.
Qed.

(** *** Further properties of the video source *)

Lemma reachable_step (e : event) (w : world) : reachable w -> reachable (step e w).
Proof.
  intros (p & trace & ->). exists p, (trace ++ [e])%list.
  cbn [run]. generalize (step (Mount p) initial). clear p.
  induction trace as [|e' trace IH]; intros w0; [reflexivity|].
  cbn [run app]. apply IH.
Qed.

Lemma reachable_run (trace : list event) (w : world) :
  reachable w -> reachable (run trace w).
Proof.
  revert w. induction trace as [|e trace IH]; intros w H; [exact H|].
  cbn [run]. apply IH, reachable_step, H.
Qed.

Lemma video_error_text_not_blocked (e : option MediaError) :
  String.eqb (video_error_text e) autoplay_blocked_text = false.
Proof. reflexivity. Qed.

Lemma video_error_text_not_empty (e : option MediaError) :
  String.eqb (video_error_text e) "" = false.
Proof. reflexivity. Qed.

(** The template, cut at its two fields. *)
Lemma video_error_text_shape (e : option MediaError) :
  video_error_text e
  = "Не удалось загрузить видео. "
    ++ ("Код ошибки: " ++ error_code_text e ++ ".")
    ++ " " ++ ("Сообщение: " ++ error_message_text e)
    ++ " Попробуйте кликнуть по экрану.".
Proof.
  unfold video_error_text. rewrite !append_assoc. reflexivity.
Qed.

Lemma includes_skip (before needle haystack : string) :
  includes needle haystack = true ->
  includes needle (before ++ haystack) = true.
Proof.
  intros H. induction before as [|c before IH]; [exact H|].
  cbn [String.append includes]. rewrite IH. apply orb_true_r.
Qed.

(** The fallback words of the template. *)
Lemma video_error_text_fallbacks (e : option MediaError) :
  (forall err : MediaError, e = Some err ->
     includes (message err) (video_error_text e) = true /\
     (code err <> 0%N ->
      includes (number_to_string (code err)) (video_error_text e) = true) /\
     (code err = 0%N ->
      includes "Код ошибки: неизвестно." (video_error_text e) = true) /\
     (message err = "" ->
      includes "Сообщение: Нет сообщения." (video_error_text e) = true)) /\
  (e = None ->
     includes "Код ошибки: неизвестно. Сообщение: Нет сообщения."
       (video_error_text e) = true).
Proof.
  split.
  - intros err ->.
    destruct (video_error_text_includes err) as (Hcode & Hmsg).
    split; [exact Hmsg|]. split; [exact Hcode|]. split.
    + intros Hz. rewrite video_error_text_shape.
      assert (E : error_code_text (Some err) = "неизвестно")
        by (unfold error_code_text; rewrite Hz; reflexivity).
      rewrite E. apply includes_app.
    + intros Hm. rewrite video_error_text_shape.
      assert (E : error_message_text (Some err) = "Нет сообщения.")
        by (unfold error_message_text; rewrite Hm; reflexivity).
      rewrite E.
      do 3 apply includes_skip.
      exact (includes_app "" "Сообщение: Нет сообщения." _).
  - intros ->. reflexivity.
Qed.

(** What [handleVideoError] does to a mounted component. *)
Lemma error_event_state (w : world) (e : option MediaError) :
  mounted_inv w ->
  phase w = Mounted ->
  videoLoadError (step (VideoErrorEvent e) w) = Some (video_error_text e) /\
  videoPlaying (step (VideoErrorEvent e) w) = false /\
  phase (step (VideoErrorEvent e) w) = Mounted.
Proof.
  intros Hinv Hphase.
  destruct w as [ph vle vp vref pa verr vls body dls tex ipp cpp calls].
  unfold mounted_inv in Hinv; cbn [phase video_listeners] in *. subst ph.
  destruct Hinv as (_ & _ & Hvls & _ & _). subst vls.
  repeat split; reflexivity.
Qed.

(** Any error event on the video of a mounted component puts the component
    into the errored state and shows the overlay.  The text contains the
    message of the error and, in decimal, its code; when the video has no
    error object, or the code is 0 or the message empty, the fallback words
    of the template appear instead. *)
Theorem error_event_shows_overlay (w : world) (e : option MediaError) :
  reachable w ->
  phase w = Mounted ->
  let w' := step (VideoErrorEvent e) w in
  let text := video_error_text e in
  overlay w' = Some text /\
  playback w' = errored text /\
  videoPlaying w' = false /\
  (forall err : MediaError, e = Some err ->
     includes (message err) text = true /\
     (code err <> 0%N -> includes (number_to_string (code err)) text = true) /\
     (code err = 0%N -> includes "Код ошибки: неизвестно." text = true) /\
     (message err = "" -> includes "Сообщение: Нет сообщения." text = true)) /\
  (e = None ->
     includes "Код ошибки: неизвестно. Сообщение: Нет сообщения." text = true).
Proof.
  intros Hreach Hphase. apply reachable_inv in Hreach.
  destruct (error_event_state w e Hreach Hphase) as (Hvle & Hvp & Hph).
  cbv zeta. unfold overlay, playback. rewrite Hvle, Hvp, Hph.
  rewrite video_error_text_not_blocked, video_error_text_not_empty.
  split; [reflexivity|]. split; [reflexivity|]. split; [reflexivity|].
  exact (video_error_text_fallbacks e).
Qed.

Lemma error_event_shows_overlay_witness :
  (reachable just_mounted /\ phase just_mounted = Mounted) /\
  overlay (step (VideoErrorEvent None) just_mounted)
  = Some (video_error_text None).
Proof.
  split; [split; [exact just_mounted_reachable | reflexivity]|].
  exact (proj1 (error_event_shows_overlay just_mounted None
                  just_mounted_reachable eq_refl)).
Defined.

(** The [play] event of the video brings a mounted component back to the
    playing state and removes the overlay, whatever was shown before, an
    error included; it touches neither the listeners nor [play()]. *)
Theorem play_event_clears_overlay (w : world) :
  reachable w ->
  phase w = Mounted ->
  let w' := step VideoPlayEvent w in
  playback w' = playing /\
  overlay w' = None /\
  document_listeners w' = document_listeners w /\
  video_listeners w' = video_listeners w /\
  play_calls w' = play_calls w.
Proof.
  intros Hreach Hphase. apply reachable_inv in Hreach.
  destruct w as [ph vle vp vref pa verr vls body dls tex ipp cpp calls].
  unfold mounted_inv in Hreach; cbn [phase video_listeners] in *. subst ph.
  destruct Hreach as (_ & _ & Hvls & _ & _). subst vls.
  repeat split; reflexivity.
Qed.

Lemma play_event_clears_overlay_witness :
  let failed := step (VideoErrorEvent (Some format_not_supported)) just_mounted in
  (reachable failed /\ phase failed = Mounted) /\
  playback (step VideoPlayEvent failed) = playing /\
  overlay (step VideoPlayEvent failed) = None.
Proof.
  intros failed.
  assert (Hreach : reachable failed)
    by (apply reachable_step; exact just_mounted_reachable).
  split; [split; [exact Hreach | reflexivity]|].
  destruct (play_event_clears_overlay failed Hreach eq_refl)
    as (Hplaying & Hoverlay & _).
  split; [exact Hplaying | exact Hoverlay].
Defined.

(** No listener is ever registered twice: in every world after the mount
    each listener is at most once on the document and at most once on the
    video. *)
Theorem no_listener_is_registered_twice (w : world) (l : listener) :
  reachable w ->
  registrations l (document_listeners w) <= 1 /\
  registrations l (video_listeners w) <= 1.
Proof.
  intros Hreach. apply reachable_inv in Hreach.
  destruct Hreach as (_ & _ & Hph).
  destruct (phase w); [contradiction| |];
    destruct Hph as (-> & _ & [-> | ->]);
    destruct l as [[] []]; split; vm_compute; lia.
Qed.

Lemma no_listener_is_registered_twice_witness :
  reachable autoplay_blocked /\
  registrations (click, playOnClick) (document_listeners autoplay_blocked) <= 1.
Proof.
  split; [exact autoplay_blocked_reachable|].
  exact (proj1 (no_listener_is_registered_twice autoplay_blocked
                  (click, playOnClick) autoplay_blocked_reachable)).
Defined.



Lemma unmounted_stays (e : event) (w : world) :
  phase w = Unmounted -> phase (step e w) = Unmounted.
Proof.
  destruct w as [ph vle vp vref pa verr vls body dls tex ipp cpp calls].
  cbn [phase]. intros ->.
  destruct e as [p|r| |r|err| |b|]; unfold step;
    cbn [phase initial_play_pending document_listeners click_play_pending
         video_listeners].
  - reflexivity.
  - destruct ipp; [destruct r|]; reflexivity.
  - destruct (registered (click, playOnClick) dls); [|reflexivity].
    unfold run_playOnClick; cbn [videoRef_current paused].
    destruct vref, pa; reflexivity.
  - destruct cpp; [|destruct r]; reflexivity.
  - cbn [set_video_error video_listeners].
    destruct (registered (error, handleVideoError) vls); reflexivity.
  - destruct (registered (play, handleVideoPlay) vls); reflexivity.
  - reflexivity.
  - reflexivity.
Qed.

Lemma unmounted_stays_run (trace : list event) (w : world) :
  phase w = Unmounted -> phase (run trace w) = Unmounted.
Proof.
  revert w. induction trace as [|e trace IH]; intros w H; [exact H|].
  cbn [run]. apply IH, unmounted_stays, H.
Qed.

(** The teardown is final for what it released: whatever happens after the
    unmount (promises settling, events of the removed video, clicks), the
    video has no listener, is not in the document, the texture is disposed,
    no [mousemove] listener is on the document and no overlay is rendered. *)
Theorem teardown_is_final (w : world) (trace : list event) :
  reachable w ->
  phase w = Unmounted ->
  let w' := run trace w in
  phase w' = Unmounted /\
  video_listeners w' = [] /\
  body_contains_video w' = false /\
  (exists texture, textureRef_current w' = Some texture /\ disposed texture = true) /\
  registered (mousemove, handleMouseMove) (document_listeners w') = false /\
  overlay w' = None.
Proof.
  intros Hreach Hphase. cbv zeta.
  pose proof (unmounted_stays_run trace w Hphase) as Hph'.
  pose proof (reachable_inv _ (reachable_run trace w Hreach)) as Hinv.
  destruct Hinv as (_ & (texture & Htex & _ & _ & _ & Hdis) & Hrest).
  rewrite Hph' in Hdis, Hrest. destruct Hrest as (Hvls & Hbody & Hdls).
  split; [exact Hph'|]. split; [exact Hvls|]. split; [exact Hbody|].
  split; [exists texture; split; assumption|].
  split.
  - destruct Hdls as [-> | ->]; reflexivity.
  - unfold overlay. rewrite Hph'. reflexivity.
Qed.

Lemma teardown_is_final_witness :
  (reachable unmounted_while_blocked /\
   phase unmounted_while_blocked = Unmounted) /\
  video_listeners
    (run [DocumentClick; VideoPlayEvent; ClickPlaySettled Fulfilled]
       unmounted_while_blocked) = [].
Proof.
  assert (Hreach : reachable unmounted_while_blocked)
    by (apply reachable_step; exact autoplay_blocked_reachable).
  split; [split; [exact Hreach | reflexivity]|].
  exact (proj1 (proj2 (teardown_is_final unmounted_while_blocked
    [DocumentClick; VideoPlayEvent; ClickPlaySettled Fulfilled]
    Hreach eq_refl))).
Defined.

(** Without a pending first promise nothing can register the click
    handler. *)
Lemma no_handler_step (e : event) (w : world) :
  mounted_inv w ->
  initial_play_pending w = false ->
  registered (click, playOnClick) (document_listeners w) = false ->
  initial_play_pending (step e w) = false /\
  registered (click, playOnClick) (document_listeners (step e w)) = false.
Proof.
  destruct w as [ph vle vp vref pa verr vls body dls tex ipp cpp calls].
  unfold mounted_inv; simpl.
  intros (_ & _ & Hph) -> Hreg.
  destruct ph; [contradiction| |];
    destruct Hph as (-> & -> & [-> | ->]); try discriminate Hreg;
    destruct e as [p|r| |r|err| |b|]; simpl;
    try destruct r; try destruct cpp; split; reflexivity.
Qed.

(** The click handler only ever comes from a rejected first [play()]: once
    that promise is settled without a handler on the document (it was
    fulfilled, or [play()] returned no promise), no later event registers
    one, and an unmount at any later moment releases everything. *)
Theorem no_click_handler_without_rejection (w : world) (trace : list event) :
  reachable w ->
  initial_play_pending w = false ->
  registered (click, playOnClick) (document_listeners w) = false ->
  let w' := run trace w in
  registered (click, playOnClick) (document_listeners w') = false /\
  (phase w' = Mounted -> released (step Unmount w')).
Proof.
  intros Hreach Hpending Hreg. cbv zeta.
  assert (G : initial_play_pending (run trace w) = false /\
              registered (click, playOnClick)
                (document_listeners (run trace w)) = false).
  { apply reachable_inv in Hreach. revert w Hreach Hpending Hreg.
    induction trace as [|e trace IH]; intros w Hinv Hpending Hreg;
      [split; assumption|].
    cbn [run]. destruct (no_handler_step e w Hinv Hpending Hreg) as (H1 & H2).
    exact (IH (step e w) (mounted_inv_step e w Hinv) H1 H2). }
  destruct G as (_ & Hreg'). split; [exact Hreg'|].
  intros Hphase.
  pose proof (reachable_inv _ (reachable_run trace w Hreach)) as Hinv.
  destruct (run trace w)
    as [ph vle vp vref pa verr vls body dls tex ipp cpp calls].
  unfold mounted_inv in Hinv; cbn [phase document_listeners] in *. subst ph.
  destruct Hinv as (_ & (texture & Htex & _) & Hvls & Hbody & Hdls).
  cbn [video_listeners body_contains_video document_listeners
       textureRef_current] in *.
  subst vls body tex.
  destruct Hdls as [-> | ->]; [|discriminate Hreg'].
  unfold released, listeners; simpl.
  split; [reflexivity|]. split; [reflexivity|].
  intros t Ht. injection Ht as <-. reflexivity.
Qed.

Lemma no_click_handler_without_rejection_witness :
  (reachable autoplay_started /\
   initial_play_pending autoplay_started = false /\
   registered (click, playOnClick) (document_listeners autoplay_started) = false) /\
  released (step Unmount
              (run [VideoErrorEvent None; DocumentClick] autoplay_started)).
Proof.
  assert (Hreach : reachable autoplay_started)
    by (apply reachable_step; exact just_mounted_reachable).
  split; [split; [exact Hreach | split; reflexivity]|].
  exact (proj2 (no_click_handler_without_rejection autoplay_started
                  [VideoErrorEvent None; DocumentClick]
                  Hreach eq_refl eq_refl) eq_refl).
Defined.

(** A rejection that arrives after the unmount still runs the [.catch] of
    the effect: it stores the autoplay message and registers the click
    handler on the document of a component that is gone. *)
Theorem late_rejection_registers_click_handler (w : world)
    (reason : option string) :
  reachable w ->
  phase w = Unmounted ->
  initial_play_pending w = true ->
  let w' := step (InitialPlaySettled (Rejected reason)) w in
  registered (click, playOnClick) (document_listeners w') = true /\
  videoLoadError w' = Some autoplay_blocked_text /\
  ~ released w'.
Proof.
  intros Hreach Hphase Hpending. apply reachable_inv in Hreach.
  destruct w as [ph vle vp vref pa verr vls body dls tex ipp cpp calls].
  unfold mounted_inv in Hreach; cbn [phase initial_play_pending] in *.
  subst ph ipp.
  destruct Hreach as (_ & _ & Hvls & _ & Hdls).
  cbn [video_listeners document_listeners] in *. subst vls.
  cbv zeta. unfold released, listeners.
  destruct Hdls as [-> | ->]; simpl;
    (split; [reflexivity|]); (split; [reflexivity|]);
    intros (H & _); discriminate H.
Qed.

Lemma late_rejection_registers_click_handler_witness :
  (reachable unmounted_early /\ phase unmounted_early = Unmounted /\
   initial_play_pending unmounted_early = true) /\
  registered (click, playOnClick)
    (document_listeners
       (step (InitialPlaySettled (Rejected None)) unmounted_early)) = true.
Proof.
  assert (Hreach : reachable unmounted_early)
    by (apply reachable_step; exact just_mounted_reachable).
  split; [split; [exact Hreach | split; reflexivity]|].
  exact (proj1 (late_rejection_registers_click_handler unmounted_early None
                  Hreach eq_refl eq_refl)).
Defined.

Lemma unmount_releases_all_but_click_handler_witness :
  (reachable autoplay_started /\ phase autoplay_started = Mounted) /\
  released (step Unmount autoplay_started).
Proof.
  assert (Hreach : reachable autoplay_started)
    by (apply reachable_step; exact just_mounted_reachable).
  split; [split; [exact Hreach | reflexivity]|].
  exact (proj2 (proj2 (proj2 (proj2 (proj2
    (unmount_releases_all_but_click_handler autoplay_started
       Hreach eq_refl))))) eq_refl).
Defined.

Lemma nonempty_message (text : string) :
  String.eqb text "" = false -> Some text <> Some "".
Proof. intros H [= ->]. discriminate H. Qed.

(** The component never stores an empty message. *)
Lemma step_message (e : event) (w : world) :
  videoLoadError w <> Some "" -> videoLoadError (step e w) <> Some "".
Proof.
  destruct w as [ph vle vp vref pa verr vls body dls tex ipp cpp calls].
  cbn [videoLoadError]. intros Hne.
  destruct e as [p|r| |r|err| |b|]; unfold step;
    cbn [phase initial_play_pending document_listeners click_play_pending
         video_listeners].
  - destruct ph; exact Hne.
  - destruct ipp; [destruct r|]; try exact Hne; cbn; discriminate.
  - destruct (registered (click, playOnClick) dls); [|exact Hne].
    unfold run_playOnClick; cbn [videoRef_current paused].
    destruct vref, pa; exact Hne.
  - destruct cpp; [exact Hne|]. destruct r as [|m]; [discriminate|].
    apply nonempty_message. apply click_error_text_not_empty.
  - destruct ph; [exact Hne| |];
      cbn [set_video_error video_listeners];
      (destruct (registered (error, handleVideoError) vls); [|exact Hne]);
      apply nonempty_message; apply video_error_text_not_empty.
  - destruct (registered (play, handleVideoPlay) vls); [|exact Hne].
    cbn. discriminate.
  - destruct ph; exact Hne.
  - destruct ph; exact Hne.
Qed.

Lemma run_message (trace : list event) (w : world) :
  videoLoadError w <> Some "" -> videoLoadError (run trace w) <> Some "".
Proof.
  revert w. induction trace as [|e trace IH]; intros w H; [exact H|].
  cbn [run]. apply IH, step_message, H.
Qed.

(** A mounted component renders the overlay exactly in the blocked and the
    errored states, and then with the stored message; in the loading and
    the playing states it renders none. *)
Theorem overlay_follows_playback_state (w : world) :
  reachable w ->
  phase w = Mounted ->
  overlay w = videoLoadError w /\
  (overlay w = None <-> playback w = loading \/ playback w = playing) /\
  (playback w = blocked_needs_interaction ->
   overlay w = Some autoplay_blocked_text) /\
  (forall message : string,
     playback w = errored message -> overlay w = Some message).
Proof.
  intros (p & trace & ->) Hphase.
  assert (Hne : videoLoadError (run (Mount p :: trace) initial) <> Some "")
    by (apply run_message; discriminate).
  revert Hphase Hne. generalize (run (Mount p :: trace) initial). intros w.
  unfold overlay, playback. intros -> Hne.
  destruct (videoLoadError w) as [text|].
  - destruct (String.eqb_spec text "") as [-> | Hnonempty];
      [contradiction|].
    destruct (String.eqb_spec text autoplay_blocked_text) as [-> | Hother].
    + split; [reflexivity|]. split.
      * split; [discriminate | intros [H | H]; discriminate H].
      * split; [reflexivity | discriminate].
    + split; [reflexivity|]. split.
      * split; [discriminate | intros [H | H]; discriminate H].
      * split; [discriminate | intros m [= ->]; reflexivity].
  - split; [reflexivity|]. split.
    + split; [|reflexivity]. intros _. destruct (videoPlaying w); auto.
    + split; [destruct (videoPlaying w); discriminate|].
      intros m. destruct (videoPlaying w); discriminate.
Qed.

Lemma overlay_follows_playback_state_witness :
  (reachable just_mounted /\ phase just_mounted = Mounted) /\
  playback just_mounted = loading /\
  overlay just_mounted = None.
Proof.
  split; [split; [exact just_mounted_reachable | reflexivity]|].
  split; [reflexivity|].
  apply (proj2 (proj1 (proj2 (overlay_follows_playback_state just_mounted
                                just_mounted_reachable eq_refl)))).
  left. reflexivity.
Defined.

End VideoFacts.

(** ** The point buffer under the shader *)

Module SceneFacts.

Import Shader.
Open Scope Q_scope.

Lemma unit_quotient (k n : Z) :
  (0 <= k < n)%Z -> 0 <= inject_Z k / inject_Z n < 1.
Proof.
  intros (Hk & Hn).
  assert (Hpos : 0 < inject_Z n)
    by (change 0 with (inject_Z 0); rewrite <- Zlt_Qlt; lia).
  split.
  - apply Qle_shift_div_l; [exact Hpos|].
    rewrite Qmult_0_l. change 0 with (inject_Z 0). rewrite <- Zle_Qle. exact Hk.
  - apply Qlt_shift_div_r; [exact Hpos|].
    rewrite Qmult_1_l. rewrite <- Zlt_Qlt. exact Hn.
Qed.

(** The [width] and [height] uniforms always match the size the point
    buffer was built with: whatever the controls and the texture were set
    to, each point of the buffer gets the normalized coordinate
    [(column / 640, row / 480)], which lies in [0, 1) on both axes, so every
    point samples inside the video frame. *)
Theorem buffer_points_sample_inside_texture (os : list uniform_update)
    (m : sampler2D) (j : nat) (p : Z * Z * Z) :
  Grid.entry j = Some p ->
  let u := updates os (material_uniforms m) in
  let vUv := uv u (grid_position p) in
  (width u = 640 /\ height u = 480) /\
  (v2x vUv == inject_Z (Z.of_nat (j mod 640)) / 640 /\
   v2y vUv == inject_Z (Z.of_nat (j / 640)) / 480) /\
  (0 <= v2x vUv < 1 /\ 0 <= v2y vUv < 1).
Proof.
  intros Hentry. cbv zeta.
  destruct (ShaderFacts.updates_size os (material_uniforms m)) as (Hw & Hh).
  change (width (material_uniforms m)) with 640 in Hw.
  change (height (material_uniforms m)) with 480 in Hh.
  apply GridFacts.entry_inv in Hentry. destruct Hentry as (Hj & ->).
  pose proof (Nat.mod_upper_bound j 640 ltac:(discriminate)) as Hm.
  assert (Hd : (j / 640 < 480)%nat)
    by (apply Nat.Div0.div_lt_upper_bound; lia).
  unfold uv, grid_position. cbn [fst snd v3x v3y v2x v2y]. rewrite Hw, Hh.
  split; [split; reflexivity|]. split; [split; reflexivity|].
  split.
  - apply (unit_quotient (Z.of_nat (j mod 640)) 640). lia.
  - apply (unit_quotient (Z.of_nat (j / 640)) 480). lia.
Qed.

Lemma buffer_points_sample_inside_texture_witness :
  Grid.entry 641 = Some (1%Z, 1%Z, 0%Z) /\
  0 <= v2x (uv (updates [SetControls swapped_controls; SetMap black]
                  (material_uniforms black))
              (grid_position (1%Z, 1%Z, 0%Z))) < 1.
Proof.
  assert (H : Grid.entry 641 = Some (1%Z, 1%Z, 0%Z))
    by (rewrite (GridFacts.entry_at 641) by lia; reflexivity).
  split; [exact H|].
  exact (proj1 (proj2 (proj2
    (buffer_points_sample_inside_texture
       [SetControls swapped_controls; SetMap black] black 641
       (1%Z, 1%Z, 0%Z) H)))).
Defined.

End SceneFacts.
